(** * IRO: incident lifecycle, circuit breaker and remediation executor

    A shallow embedding of the control core of the Incident Response
    Orchestrator:

    - [src/iro/utils/circuit_breaker.py]   (module [CircuitBreaker])
    - [src/iro/remediation/executor.py]    (module [Executor])
    - [src/iro/orchestrator.py]            (module [Orchestrator])
    - [src/iro/analysis/analyzer.py]       (module [Analyzer]: the fallback
      actions and the analysis cache)
    - [src/iro/monitoring/detector.py]     (module [Detector]: the metrics
      history)

    Conventions of the embedding.

    - A [datetime] is the number of microseconds since the epoch, a [Z];
      a [timedelta] is a number of microseconds.  Every handler receives the
      clock readings it makes as arguments.
    - Python [float]s are IEEE binary64 values: [PrimFloat.float].
    - Python [str] is [string]; the string functions below are the ASCII
      fragment of Python's.
    - An exception is a value of [PyError]; a function that may raise returns
      a [result].  The exceptions carried are the ones the modelled code
      raises on well-formed events: [ValueError] ([int], [datetime.replace])
      and [QueueFull].  The [OverflowError] of a [timedelta] that cannot
      hold the [reset_timeout] of a breaker is not carried: the statements
      that ask an open breaker of any settings take a [reset_timeout] that
      a [timedelta] can hold, as those of the orchestrator's breakers are.
      Cancellation of a running coroutine is not modelled.
    - The turns of the executor's worker loop are taken one after the other;
      what is stated of the events of several plans does not depend on the
      order in which concurrent workers publish them.
    - [event_bus.publish] appends to the list of published events that every
      handler returns.
    - A dict or an object that a handler mutates in place is a record that
      the handler returns updated; the registry entry is rewritten under
      the key it was found at.
    - Log calls are kept where a statement below reads them (the request
      handler of the executor) and left out elsewhere. *)

From Stdlib Require Import ZArith List String Ascii Bool Lia.
From Stdlib Require Import Floats.PrimFloat.
From stdpp Require Import base option gmap strings list pretty.

Set Warnings "-inexact-float".

Local Open Scope string_scope.
Local Open Scope list_scope.
Local Open Scope Z_scope.

(** ** Exceptions *)

Inductive PyError : Type :=
| ValueError
| QueueFull.

Inductive result (A : Type) : Type :=
| Ok (a : A)
| Raise (e : PyError).
Arguments Ok {A} a.
Arguments Raise {A} e.

#[global] Instance result_ret : MRet result := fun A a => Ok a.

#[global] Instance result_bind : MBind result := fun A B k r =>
  match r with
  | Ok a => k a
  | Raise e => Raise e
  end.

#[global] Instance result_fmap : FMap result := fun A B f r =>
  match r with
  | Ok a => Ok (f a)
  | Raise e => Raise e
  end.

(** ** datetime *)

Definition datetime : Type := Z.

Definition MICROSECONDS_PER_SECOND : Z := 1000000.
Definition MICROSECONDS_PER_HOUR : Z := 3600 * MICROSECONDS_PER_SECOND.

(** [timedelta(seconds=n)] *)
Definition timedelta_seconds (n : Z) : Z := n * MICROSECONDS_PER_SECOND.

(** A [timedelta] holds between -999999999 and 999999999 days:
    [timedelta(seconds=n)] raises [OverflowError] for an [n] whose days,
    [n // 86400], are outside this range, that is for [n] below
    -86399999913600 or above 86399999999999. *)
Definition timedelta_representable (n : Z) : bool :=
  (-999999999 <=? n / 86400) && (n / 86400 <=? 999999999).

(** [dt.hour]: the hour of the day, always in 0..23. *)
Definition hour (dt : datetime) : Z := (dt / MICROSECONDS_PER_HOUR) mod 24.

(** [dt.replace(hour=h)]: the same instant of the same day with the hour
    field set to [h]; [ValueError] when [h] is not in 0..23. *)
Definition replace_hour (dt : datetime) (h : Z) : result datetime :=
  if (0 <=? h) && (h <=? 23)
  then Ok (dt + (h - hour dt) * MICROSECONDS_PER_HOUR)
  else Raise ValueError.

(** The clock readings of one handler invocation: [datetime.now(timezone.utc)]
    and the naive [datetime.now()] the circuit breaker reads. *)
Record Clock : Type := {
  utc_now : datetime;
  local_now : datetime
}.

(** ** Data model ([core/models.py]) *)

Module Models.

(** Modelled from the spec: the enum [SeverityLevel] of [core/models.py],
    which is not among the sources ("ordered enum: info < warning < error <
    critical < emergency"). *)
Inductive SeverityLevel : Type :=
| INFO
| WARNING
| ERROR
| CRITICAL
| EMERGENCY.

(** Modelled from the spec: the enum [IncidentState] of [core/models.py]
    (new, analyzing, remediating, resolved, failed). *)
Inductive IncidentState : Type :=
| NEW
| ANALYZING
| REMEDIATING
| RESOLVED
| FAILED.

#[global] Instance IncidentState_eq_dec : EqDecision IncidentState.
Proof. solve_decision. Defined.

#[global] Instance SeverityLevel_eq_dec : EqDecision SeverityLevel.
Proof. solve_decision. Defined.

(** One entry of an analysis' [recommended_actions]; a field is [None] when
    the key is absent from the dict, and the dict under [parameters] is
    carried as its printed form. *)
Record Action : Type := {
  action : option string;
  priority : option string;
  estimated_time : option string;
  parameters : option string
}.

(** The analysis dict, with the keys the orchestrator and the executor
    read. *)
Record Analysis : Type := {
  summary : string;
  confidence : option float;
  recommended_actions : option (list Action)
}.

(** The [result] dict of a [remediation.completed] event. *)
Record RemediationResult : Type := {
  execution_state : string;
  steps_completed : nat;
  total_steps : nat;
  duration : Z
}.

(** Modelled from the spec: the dataclass [Incident] of [core/models.py],
    with the fields the orchestrator and the executor read and write. *)
Record Incident : Type := {
  id : string;
  service : string;
  type : string;
  severity : SeverityLevel;
  state : IncidentState;
  root_cause : option Analysis;
  remediation_result : option RemediationResult;
  updated_at : datetime;
  resolved_at : option datetime
}.

Definition set_state (s : IncidentState) (i : Incident) : Incident :=
  {| id := id i; service := service i; type := type i;
     severity := severity i; state := s; root_cause := root_cause i;
     remediation_result := remediation_result i;
     updated_at := updated_at i; resolved_at := resolved_at i |}.

Definition set_root_cause (a : Analysis) (i : Incident) : Incident :=
  {| id := id i; service := service i; type := type i;
     severity := severity i; state := state i; root_cause := Some a;
     remediation_result := remediation_result i;
     updated_at := updated_at i; resolved_at := resolved_at i |}.

Definition set_remediation_result (r : RemediationResult) (i : Incident)
  : Incident :=
  {| id := id i; service := service i; type := type i;
     severity := severity i; state := state i; root_cause := root_cause i;
     remediation_result := Some r;
     updated_at := updated_at i; resolved_at := resolved_at i |}.

Definition set_updated_at (t : datetime) (i : Incident) : Incident :=
  {| id := id i; service := service i; type := type i;
     severity := severity i; state := state i; root_cause := root_cause i;
     remediation_result := remediation_result i;
     updated_at := t; resolved_at := resolved_at i |}.

Definition set_resolved_at (t : datetime) (i : Incident) : Incident :=
  {| id := id i; service := service i; type := type i;
     severity := severity i; state := state i; root_cause := root_cause i;
     remediation_result := remediation_result i;
     updated_at := updated_at i; resolved_at := Some t |}.

(** The terminal states of the lifecycle. *)
Definition terminal (s : IncidentState) : bool :=
  match s with
  | RESOLVED | FAILED => true
  | _ => false
  end.

End Models.

(** ** [utils/circuit_breaker.py] *)

Module CircuitBreaker.

Inductive CircuitState : Type :=
| CLOSED
| OPEN
| HALF_OPEN.

Record t : Type := {
  failure_threshold : Z;
  reset_timeout : Z;
  success_threshold : Z;
  name : string;
  state : CircuitState;
  failure_count : Z;
  success_count : Z;
  last_failure_time : option datetime
}.

(** [CircuitBreaker.__init__] *)
Definition init (failure_threshold reset_timeout success_threshold : Z)
    (name : string) : t :=
  {| failure_threshold := failure_threshold;
     reset_timeout := reset_timeout;
     success_threshold := success_threshold;
     name := name;
     state := CLOSED;
     failure_count := 0;
     success_count := 0;
     last_failure_time := None |}.

Definition _transition_to_closed (cb : t) : t :=
  {| failure_threshold := failure_threshold cb;
     reset_timeout := reset_timeout cb;
     success_threshold := success_threshold cb;
     name := name cb;
     state := CLOSED;
     failure_count := 0;
     success_count := 0;
     last_failure_time := last_failure_time cb |}.

Definition _transition_to_open (cb : t) : t :=
  {| failure_threshold := failure_threshold cb;
     reset_timeout := reset_timeout cb;
     success_threshold := success_threshold cb;
     name := name cb;
     state := OPEN;
     failure_count := failure_count cb;
     success_count := 0;
     last_failure_time := last_failure_time cb |}.

Definition _transition_to_half_open (cb : t) : t :=
  {| failure_threshold := failure_threshold cb;
     reset_timeout := reset_timeout cb;
     success_threshold := success_threshold cb;
     name := name cb;
     state := HALF_OPEN;
     failure_count := failure_count cb;
     success_count := 0;
     last_failure_time := last_failure_time cb |}.

(** [can_execute]: the answer and the breaker after the call ([now] is the
    reading of [datetime.now()]), for a breaker whose [reset_timeout] is
    [timedelta_representable], as the breakers the orchestrator builds are
    (60 and 30 seconds).  For another one,
    [timedelta(seconds=self.reset_timeout)] raises [OverflowError] where it
    is evaluated, which is when an open breaker that has a failure time is
    asked; this exception is not modelled, and the properties that ask an
    open breaker of any settings take a representable [reset_timeout]. *)
Definition can_execute (now : datetime) (cb : t) : bool * t :=
  match state cb with
  | CLOSED => (true, cb)
  | OPEN =>
      match last_failure_time cb with
      | Some last =>
          if timedelta_seconds (reset_timeout cb) <=? now - last
          then (true, _transition_to_half_open cb)
          else (false, cb)
      | None => (false, cb)
      end
  | HALF_OPEN => (true, cb)
  end.

Definition set_success_count (n : Z) (cb : t) : t :=
  {| failure_threshold := failure_threshold cb;
     reset_timeout := reset_timeout cb;
     success_threshold := success_threshold cb;
     name := name cb;
     state := state cb;
     failure_count := failure_count cb;
     success_count := n;
     last_failure_time := last_failure_time cb |}.

Definition set_failure_count (n : Z) (cb : t) : t :=
  {| failure_threshold := failure_threshold cb;
     reset_timeout := reset_timeout cb;
     success_threshold := success_threshold cb;
     name := name cb;
     state := state cb;
     failure_count := n;
     success_count := success_count cb;
     last_failure_time := last_failure_time cb |}.

Definition set_last_failure_time (now : datetime) (cb : t) : t :=
  {| failure_threshold := failure_threshold cb;
     reset_timeout := reset_timeout cb;
     success_threshold := success_threshold cb;
     name := name cb;
     state := state cb;
     failure_count := failure_count cb;
     success_count := success_count cb;
     last_failure_time := Some now |}.

Definition record_success (cb : t) : t :=
  match state cb with
  | HALF_OPEN =>
      let cb := set_success_count (success_count cb + 1) cb in
      if success_threshold cb <=? success_count cb
      then _transition_to_closed cb
      else cb
  | CLOSED => set_failure_count 0 cb
  | OPEN => cb
  end.

Definition record_failure (now : datetime) (cb : t) : t :=
  let cb := set_failure_count (failure_count cb + 1) cb in
  let cb := set_last_failure_time now cb in
  match state cb with
  | CLOSED =>
      if failure_threshold cb <=? failure_count cb
      then _transition_to_open cb
      else cb
  | HALF_OPEN => _transition_to_open cb
  | OPEN => cb
  end.

(** [n] consecutive [record_failure()] calls, made at the instants [ts]. *)
Definition record_failures (ts : list datetime) (cb : t) : t :=
  fold_left (fun c now => record_failure now c) ts cb.

(** [n] consecutive [record_success()] calls. *)
Definition record_successes (n : nat) (cb : t) : t :=
  Nat.iter n record_success cb.

(** The settings of a breaker, which no operation changes. *)
Definition same_settings (a b : t) : Prop :=
  failure_threshold a = failure_threshold b
  /\ reset_timeout a = reset_timeout b
  /\ success_threshold a = success_threshold b.

(** The counters of a breaker never go below zero. *)
Definition counters_ok (cb : t) : Prop :=
  0 <= failure_count cb /\ 0 <= success_count cb.

(** *** [execute] and the calls of a caller *)

(** What awaiting [execute] comes to: the value [func] returned, the
    exception [func] raised, raised again, or [CircuitBreakerOpenError]. *)
Inductive Executed (R E : Type) : Type :=
| ExecReturned (result : R)
| ExecRaised (e : E)
| CircuitBreakerOpenError.
Arguments ExecReturned {R E} result.
Arguments ExecRaised {R E} e.
Arguments CircuitBreakerOpenError {R E}.

(** [execute] (and [execute_async], which is [execute] under the lock).
    [func] acts on a world [W] and returns or raises; [now] is the clock
    reading of [can_execute], [now'] the one of [record_failure]. *)
Definition execute {R E W : Type} (now now' : datetime) (cb : t)
    (func : W -> (R + E) * W) (w : W) : Executed R E * t * W :=
  let '(allowed, cb) := can_execute now cb in
  if allowed then
    match func w with
    | (inl result, w') => (ExecReturned result, record_success cb, w')
    | (inr e, w') => (ExecRaised e, record_failure now' cb, w')
    end
  else (CircuitBreakerOpenError, cb, w).

(** Calls of [execute] in a row, each with its two clock readings: the
    outcomes in order, the breaker and the world after the last call. *)
Fixpoint execute_each {R E W : Type} (times : list (datetime * datetime))
    (cb : t) (func : W -> (R + E) * W) (w : W)
  : list (Executed R E) * t * W :=
  match times with
  | [] => ([], cb, w)
  | (now, now') :: rest =>
      let '(outcome, cb', w') := execute now now' cb func w in
      let '(outcomes, cb'', w'') := execute_each rest cb' func w' in
      (outcome :: outcomes, cb'', w'')
  end.

(** A call of one of the three methods that change a breaker. *)
Inductive Call : Type :=
| CanExecute (now : datetime)
| RecordSuccess
| RecordFailure (now : datetime).

Definition call (c : Call) (cb : t) : t :=
  match c with
  | CanExecute now => (can_execute now cb).2
  | RecordSuccess => record_success cb
  | RecordFailure now => record_failure now cb
  end.

Definition calls (cs : list Call) (cb : t) : t :=
  fold_left (fun cb c => call c cb) cs cb.

(** What holds of a breaker between calls. *)
Definition consistent (cb : t) : Prop :=
  0 <= failure_count cb
  /\ 0 <= success_count cb
  /\ (state cb = CLOSED -> failure_count cb < failure_threshold cb)
  /\ (state cb = HALF_OPEN -> success_count cb < success_threshold cb)
  /\ (state cb <> HALF_OPEN -> success_count cb = 0)
  /\ (state cb <> CLOSED -> is_Some (last_failure_time cb)).

End CircuitBreaker.

(** ** The event bus *)

(** Modelled from the spec: the bus of [utils/events.py], which is not among
    the sources and is used through [publish] only ("a handler exception is
    logged and swallowed; it never propagates to the publisher").  An event
    is a topic with its payload; publishing records the event, in the order
    of publication, in the list a handler returns. *)

Inductive Event : Type :=
| incident_detected (incident : Models.Incident)
| analysis_request (incident : Models.Incident)
| analysis_completed (incident_id : string) (analysis : Models.Analysis)
| remediation_request (incident : Models.Incident)
    (analysis : Models.Analysis)
| remediation_completed (incident_id plan_id : string) (success : bool)
    (error : option string) (result : Models.RemediationResult)
| dashboard_incident_update (incident : Models.Incident)
| health_check.

(** ** Logging *)

Inductive Level : Type :=
| LOG_INFO
| LOG_WARNING
| LOG_ERROR.

Definition LogRecord : Type := Level * string.

(** ** The fragment of Python's [str] and [int] the executor uses *)

Module PyStr.

Local Open Scope nat_scope.

Definition is_upper (c : ascii) : bool :=
  (65 <=? nat_of_ascii c) && (nat_of_ascii c <=? 90).

Definition is_digit (c : ascii) : bool :=
  (48 <=? nat_of_ascii c) && (nat_of_ascii c <=? 57).

(** [str.isspace] on the ASCII range: tab, newline, vertical tab, form feed,
    carriage return, the four separators 0x1c..0x1f and the space. *)
Definition is_space (c : ascii) : bool :=
  let n := nat_of_ascii c in
  ((9 <=? n) && (n <=? 13)) || ((28 <=? n) && (n <=? 32)).

Definition lower_char (c : ascii) : ascii :=
  if is_upper c then ascii_of_nat (nat_of_ascii c + 32) else c.

(** [s.lower()] *)
Fixpoint lower (s : string) : string :=
  match s with
  | EmptyString => EmptyString
  | String c r => String (lower_char c) (lower r)
  end.

Fixpoint lstrip (s : string) : string :=
  match s with
  | EmptyString => EmptyString
  | String c r => if is_space c then lstrip r else s
  end.

Fixpoint rstrip (s : string) : string :=
  match s with
  | EmptyString => EmptyString
  | String c r =>
      match rstrip r with
      | EmptyString => if is_space c then EmptyString else String c EmptyString
      | r' => String c r'
      end
  end.

(** [s.strip()] *)
Definition strip (s : string) : string := rstrip (lstrip s).

(** The whitespace [int] skips around a numeral: the C locale's [isspace],
    which is tab, newline, vertical tab, form feed, carriage return and the
    space.  The separators 0x1c..0x1f, which [strip] removes, are not among
    it. *)
Definition is_c_space (c : ascii) : bool :=
  let n := nat_of_ascii c in
  ((9 <=? n) && (n <=? 13)) || (n =? 32).

(** [s] without its leading characters that satisfy [p]. *)
Fixpoint skip_leading (p : ascii -> bool) (s : string) : string :=
  match s with
  | EmptyString => EmptyString
  | String c r => if p c then skip_leading p r else s
  end.

(** [s] without its trailing characters that satisfy [p]. *)
Fixpoint skip_trailing (p : ascii -> bool) (s : string) : string :=
  match s with
  | EmptyString => EmptyString
  | String c r =>
      match skip_trailing p r with
      | EmptyString => if p c then EmptyString else String c EmptyString
      | r' => String c r'
      end
  end.

Fixpoint last_char (s : string) : option ascii :=
  match s with
  | EmptyString => None
  | String c EmptyString => Some c
  | String _ r => last_char r
  end.

(** [s.endswith(c)] for a one-character suffix [c] *)
Definition endswith (s : string) (c : ascii) : bool :=
  match last_char s with
  | Some d => Ascii.eqb d c
  | None => false
  end.

(** [s[:-1]] *)
Fixpoint drop_last (s : string) : string :=
  match s with
  | EmptyString => EmptyString
  | String _ EmptyString => EmptyString
  | String c r => String c (drop_last r)
  end.

Local Open Scope Z_scope.

Definition digit_value (c : ascii) : Z := Z.of_nat (nat_of_ascii c) - 48.

(** The digits of an integer literal: a non-empty run of decimal digits in
    which single underscores may separate digits.  [after_digit] tells
    whether the previous character was a digit. *)
Fixpoint parse_digits (acc : Z) (after_digit : bool) (s : string)
  : option Z :=
  match s with
  | EmptyString => if after_digit then Some acc else None
  | String c r =>
      if is_digit c then parse_digits (10 * acc + digit_value c) true r
      else if Ascii.eqb c "_" && after_digit then parse_digits acc false r
      else None
  end.

(** The number of decimal digits in [s]. *)
Fixpoint count_digits (s : string) : Z :=
  match s with
  | EmptyString => 0
  | String c r => (if is_digit c then 1 else 0) + count_digits r
  end.

(** [sys.int_info.default_max_str_digits]: the longest numeral [int]
    converts. *)
Definition max_str_digits : Z := 4300.

(** [int(s)] on an ASCII string: whitespace around the numeral is skipped
    ([is_c_space], not all that [strip] removes), a sign may come first,
    and anything else that is not an integer literal raises [ValueError];
    so does a literal of more than [max_str_digits] digits, leading zeros
    counted and underscores not. *)
Definition int (s : string) : result Z :=
  let s := skip_trailing is_c_space (skip_leading is_c_space s) in
  let parsed :=
    match s with
    | String "+" r => parse_digits 0 false r
    | String "-" r => Z.opp <$> parse_digits 0 false r
    | r => parse_digits 0 false r
    end in
  match parsed with
  | Some n =>
      if count_digits s <=? max_str_digits then Ok n else Raise ValueError
  | None => Raise ValueError
  end.

(** *** Notions the statements below use *)

(** Every character of [s] satisfies [p]. *)
Fixpoint all_chars (p : ascii -> bool) (s : string) : bool :=
  match s with
  | EmptyString => true
  | String c r => p c && all_chars p r
  end.

(** A character that is neither an upper-case letter nor whitespace. *)
Definition plain (c : ascii) : bool := negb (is_upper c) && negb (is_space c).

End PyStr.

(** ** [asyncio.Queue] *)

Module Queue.

Record t (A : Type) : Type := {
  maxsize : Z;
  items : list A
}.
Arguments maxsize {A} _.
Arguments items {A} _.

(** [asyncio.Queue(maxsize)]: the queue is unbounded when [maxsize <= 0]. *)
Definition init {A : Type} (maxsize : Z) : t A :=
  {| maxsize := maxsize; items := [] |}.

Definition qsize {A : Type} (q : t A) : Z := Z.of_nat (length (items q)).

Definition full {A : Type} (q : t A) : bool :=
  if maxsize q <=? 0 then false else maxsize q <=? qsize q.

(** The outcome of awaiting a queue operation: it completed, or the
    awaiting coroutine is suspended until another coroutine changes the
    queue. *)
Inductive Await (R : Type) : Type :=
| Done (r : R)
| Pending.
Arguments Done {R} r.
Arguments Pending {R}.

(** [await q.put(item)]: "if the queue is full, wait until a free slot is
    available before adding the item". *)
Definition put {A : Type} (q : t A) (item : A) : Await (result (t A)) :=
  if full q then Pending
  else Done (Ok {| maxsize := maxsize q; items := items q ++ [item] |}).

(** [q.put_nowait(item)]: raises [QueueFull] when no slot is free. *)
Definition put_nowait {A : Type} (q : t A) (item : A) : result (t A) :=
  if full q then Raise QueueFull
  else Ok {| maxsize := maxsize q; items := items q ++ [item] |}.

(** [await q.get()]: the oldest item, or suspension on an empty queue. *)
Definition get {A : Type} (q : t A) : Await (A * t A) :=
  match items q with
  | [] => Pending
  | x :: rest => Done (x, {| maxsize := maxsize q; items := rest |})
  end.

End Queue.

(** ** [config.py] *)

Module Config.

Record RemediationConfig : Type := {
  dry_run : bool;
  require_approval : bool;
  max_concurrent : Z;
  timeout_seconds : Z;
  enable_rollback : bool;
  max_blast_radius : float
}.

(** The dataclass defaults. *)
Definition default : RemediationConfig :=
  {| dry_run := false;
     require_approval := false;
     max_concurrent := 3;
     timeout_seconds := 300;
     enable_rollback := true;
     max_blast_radius := 0.8%float |}.

End Config.

(** ** [remediation/executor.py] *)

(** Modelled from the spec: the dataclass [RemediationStep] of
    [core/models.py] ("name, action type, parameters, per-step timeout,
    continue_on_error flag, outcome fields: success, output, error"); the
    dict [parameters] is carried as its printed form. *)
Module RemediationStep.

Record t : Type := {
  name : string;
  description : string;
  action_type : string;
  parameters : string;
  timeout_seconds : Z;
  continue_on_error : bool;
  success : bool;
  output : option string;
  error_message : option string
}.

Definition set_outcome (ok : bool) (out err : option string) (s : t) : t :=
  {| name := name s; description := description s;
     action_type := action_type s; parameters := parameters s;
     timeout_seconds := timeout_seconds s;
     continue_on_error := continue_on_error s;
     success := ok; output := out; error_message := err |}.

(** The step as the plan was built with it, outcome fields apart. *)
Definition same_step (s1 s2 : t) : Prop :=
  name s1 = name s2 /\ action_type s1 = action_type s2 /\
  parameters s1 = parameters s2 /\
  timeout_seconds s1 = timeout_seconds s2 /\
  continue_on_error s1 = continue_on_error s2.

(** A failed step whose [continue_on_error] is false. *)
Definition aborting (s : t) : bool :=
  negb (success s) && negb (continue_on_error s).

End RemediationStep.

(** Modelled from the spec: the dataclass [RemediationPlan] of
    [core/models.py] ("incident_id, an ordered sequence of RemediationStep,
    estimated_duration, execution_state (pending, executing, completed or
    failed)"). *)
Module RemediationPlan.

Record t : Type := {
  id : string;
  incident_id : string;
  steps : list RemediationStep.t;
  estimated_duration : Z;
  execution_state : string;
  success : bool
}.

End RemediationPlan.

Module Executor.

Import Models.

(** The state of a [RemediationExecutor] that the request handler and the
    workers share. *)
Record t : Type := {
  config : Config.RemediationConfig;
  execution_queue : Queue.t (Incident * RemediationPlan.t)
}.

(** [RemediationExecutor.__init__] *)
Definition init (config : Config.RemediationConfig) : t :=
  {| config := config;
     execution_queue := Queue.init (Config.max_concurrent config) |}.

Definition set_execution_queue (q : Queue.t (Incident * RemediationPlan.t))
    (self : t) : t :=
  {| config := config self; execution_queue := q |}.

(** [_parse_time_estimate] *)
Definition _parse_time_estimate (time_str : string) : result Z :=
  let time_str := PyStr.strip (PyStr.lower time_str) in
  if PyStr.endswith time_str "s" then
    PyStr.int (PyStr.drop_last time_str)
  else if PyStr.endswith time_str "m" then
    n ← PyStr.int (PyStr.drop_last time_str); mret (n * 60)
  else if PyStr.endswith time_str "h" then
    n ← PyStr.int (PyStr.drop_last time_str); mret (n * 3600)
  else
    mret 300.

(** The body of the loop of [_create_remediation_plan] for the action at
    index [i]. *)
Definition make_step (i : nat) (a : Action) : result RemediationStep.t :=
  timeout ← _parse_time_estimate (default "5m" (estimated_time a));
  mret {| RemediationStep.name :=
            default ("step_" +:+ pretty i) (action a);
          RemediationStep.description :=
            "Execute " +:+ default "unknown action" (action a);
          RemediationStep.action_type := default "unknown" (action a);
          RemediationStep.parameters := default "{}" (Models.parameters a);
          RemediationStep.timeout_seconds := timeout;
          RemediationStep.continue_on_error :=
            negb (bool_decide (priority a = Some "high"));
          RemediationStep.success := false;
          RemediationStep.output := None;
          RemediationStep.error_message := None |}.

(** [for i, action in enumerate(recommended_actions)], from index [i]. *)
Fixpoint make_steps (i : nat) (actions : list Action)
  : result (list RemediationStep.t) :=
  match actions with
  | [] => mret []
  | a :: rest =>
      step ← make_step i a;
      steps ← make_steps (S i) rest;
      mret (step :: steps)
  end.

Definition sum_timeouts (steps : list RemediationStep.t) : Z :=
  fold_right (fun s acc => RemediationStep.timeout_seconds s + acc) 0 steps.

(** [_create_remediation_plan]; [plan_id] is the identifier the new plan
    gets.  The plan's [risk_score] and [approval_required], which nothing
    reads afterwards, are not carried. *)
Definition _create_remediation_plan (incident : Incident)
    (analysis : Analysis) (plan_id : string)
  : result RemediationPlan.t * list LogRecord :=
  let plan steps :=
    {| RemediationPlan.id := plan_id;
       RemediationPlan.incident_id := Models.id incident;
       RemediationPlan.steps := steps;
       RemediationPlan.estimated_duration := sum_timeouts steps;
       RemediationPlan.execution_state := "pending";
       RemediationPlan.success := false |} in
  match default [] (recommended_actions analysis) with
  | [] =>
      (Ok (plan []),
       [(LOG_WARNING,
         "No recommended actions in analysis for " +:+ Models.id incident)])
  | actions => (plan <$> make_steps 0 actions, [])
  end.

(** What awaiting [_handle_remediation_request] comes to: the handler
    returned, or it is suspended in [execution_queue.put] with the pair it
    is about to queue. *)
Inductive Handled : Type :=
| Returned (self : t) (log : list LogRecord)
| Suspended (item : Incident * RemediationPlan.t) (log : list LogRecord).

Definition error_name (e : PyError) : string :=
  match e with
  | ValueError => "ValueError"
  | QueueFull => "QueueFull"
  end.

(** [_handle_remediation_request]; the text of a caught exception is
    logged as the name of its class. *)
Definition _handle_remediation_request (self : t) (incident : Incident)
    (analysis : Analysis) (plan_id : string) : Handled :=
  let log0 :=
    [(LOG_INFO,
      "Creating remediation plan for incident " +:+ Models.id incident)] in
  match _create_remediation_plan incident analysis plan_id with
  | (Raise e, log1) =>
      Returned self
        (log0 ++ log1 ++
         [(LOG_ERROR,
           "Error handling remediation request: " +:+ error_name e)])
  | (Ok plan, log1) =>
      match RemediationPlan.steps plan with
      | [] =>
          Returned self
            (log0 ++ log1 ++
             [(LOG_WARNING,
               "No remediation steps created for incident "
               +:+ Models.id incident)])
      | _ =>
          match Queue.put (execution_queue self) (incident, plan) with
          | Queue.Done (Ok q) =>
              Returned (set_execution_queue q self)
                (log0 ++ log1 ++
                 [(LOG_INFO,
                   "Queued remediation plan " +:+ plan_id
                   +:+ " for execution")])
          | Queue.Done (Raise QueueFull) =>
              Returned self
                (log0 ++ log1 ++
                 [(LOG_WARNING,
                   "Execution queue full, skipping remediation for "
                   +:+ Models.id incident)])
          | Queue.Done (Raise e) =>
              Returned self
                (log0 ++ log1 ++
                 [(LOG_ERROR,
                   "Error handling remediation request: "
                   +:+ error_name e)])
          | Queue.Pending => Suspended (incident, plan) (log0 ++ log1)
          end
      end
  end.

(** The handlers of [_register_action_handlers]. *)
Inductive Handler : Type :=
| _handle_scale_replicas
| _handle_restart_pod
| _handle_check_pod_logs
| _handle_check_cpu_limits
| _handle_check_memory_limits
| _handle_verify_health_checks
| _handle_investigate_manually.

Definition _register_action_handlers : gmap string Handler :=
  list_to_map
    [("scale_replicas", _handle_scale_replicas);
     ("restart_pod", _handle_restart_pod);
     ("check_pod_logs", _handle_check_pod_logs);
     ("check_cpu_limits", _handle_check_cpu_limits);
     ("check_memory_limits", _handle_check_memory_limits);
     ("verify_health_checks", _handle_verify_health_checks);
     ("investigate_manually", _handle_investigate_manually)].

(** What [await asyncio.wait_for(handler(incident, step), timeout)] comes
    to. *)
Inductive HandlerOutcome : Type :=
| HandlerReturned (result : string)
| HandlerTimedOut
| HandlerRaised (message : string).

Section Execution.

(** The cluster the handlers act on, and the handlers run against it under
    the step's timeout. *)
Context {World : Type}.
Variable await_handler :
  Handler -> Incident -> RemediationStep.t -> World -> HandlerOutcome * World.

(** [_execute_step]: the value returned, the step as it is left, and the
    cluster. *)
Definition _execute_step (incident : Incident) (step : RemediationStep.t)
    (w : World) : bool * RemediationStep.t * World :=
  match _register_action_handlers !! RemediationStep.action_type step with
  | None =>
      (false,
       RemediationStep.set_outcome false (RemediationStep.output step)
         (Some ("Unknown action type: " +:+ RemediationStep.action_type step))
         step,
       w)
  | Some handler =>
      match await_handler handler incident step w with
      | (HandlerReturned result, w') =>
          (true,
           RemediationStep.set_outcome true
             (Some (if decide (result = "")
                    then "Action completed successfully" else result))
             (RemediationStep.error_message step) step,
           w')
      | (HandlerTimedOut, w') =>
          (false,
           RemediationStep.set_outcome false (RemediationStep.output step)
             (Some ("Step timed out after "
                    +:+ pretty (RemediationStep.timeout_seconds step)
                    +:+ " seconds"))
             step,
           w')
      | (HandlerRaised message, w') =>
          (false,
           RemediationStep.set_outcome false (RemediationStep.output step)
             (Some message) step,
           w')
      end
  end.

(** The outcome of the loop over the steps of a plan: the steps
    [_execute_step] was called on, in the order of the calls and as the
    calls left them; the steps the loop never reached; and the loop's
    [success] and [error_message]. *)
Record Run : Type := {
  executed : list RemediationStep.t;
  skipped : list RemediationStep.t;
  run_success : bool;
  run_error : option string;
  world : World
}.

(** [for step in plan.steps: ...] of [_execute_remediation_plan] *)
Fixpoint execute_each_step (incident : Incident)
    (steps : list RemediationStep.t) (w : World) : Run :=
  match steps with
  | [] =>
      {| executed := []; skipped := []; run_success := true;
         run_error := None; world := w |}
  | step :: rest =>
      let '(step_success, step', w') := _execute_step incident step w in
      if negb step_success && negb (RemediationStep.continue_on_error step')
      then
        {| executed := [step']; skipped := rest; run_success := false;
           run_error :=
             Some ("Step '" +:+ RemediationStep.name step' +:+ "' failed: "
                   +:+ default "None" (RemediationStep.error_message step'));
           world := w' |}
      else
        let r := execute_each_step incident rest w' in
        {| executed := step' :: executed r; skipped := skipped r;
           run_success := run_success r; run_error := run_error r;
           world := world r |}
  end.

(** "Execute steps strictly in list order", in the specification's words:
    the handlers of [steps] awaited one after the other, each on the
    cluster as the one before left it.  The outcome of each wait ([None]
    for a step whose action type has no handler, for which nothing is
    awaited) and the cluster after the last one. *)
Fixpoint await_in_list_order (incident : Incident)
    (steps : list RemediationStep.t) (w : World)
  : list (option HandlerOutcome) * World :=
  match steps with
  | [] => ([], w)
  | step :: rest =>
      let '(outcome, w') :=
        match _register_action_handlers !! RemediationStep.action_type step
        with
        | Some handler =>
            let '(outcome, w') := await_handler handler incident step w in
            (Some outcome, w')
        | None => (None, w)
        end in
      let '(outcomes, w'') := await_in_list_order incident rest w' in
      (outcome :: outcomes, w'')
  end.

(** [_dry_run_execution] *)
Definition _dry_run_execution (steps : list RemediationStep.t)
  : list RemediationStep.t :=
  map (fun step =>
         RemediationStep.set_outcome true
           (Some ("DRY RUN: Would execute "
                  +:+ RemediationStep.action_type step
                  +:+ " with parameters " +:+ RemediationStep.parameters step))
           (RemediationStep.error_message step) step)
      steps.

(** [_execute_remediation_plan]: the run of the steps, the plan as it is
    left and the [remediation.completed] event published in the [finally]
    block.  [started_at] and [completed_at] are the two clock readings. *)
Definition _execute_remediation_plan (self : t) (incident : Incident)
    (plan : RemediationPlan.t) (started_at completed_at : datetime)
    (w : World) : Run * RemediationPlan.t * Event :=
  let r :=
    if Config.dry_run (config self) then
      {| executed := []; skipped := [];
         run_success := true; run_error := None; world := w |}
    else execute_each_step incident (RemediationPlan.steps plan) w in
  let steps' : list RemediationStep.t :=
    if Config.dry_run (config self)
    then _dry_run_execution (RemediationPlan.steps plan)
    else executed r ++ skipped r in
  let state' := if run_success r then "completed" else "failed" in
  let plan' :=
    {| RemediationPlan.id := RemediationPlan.id plan;
       RemediationPlan.incident_id := RemediationPlan.incident_id plan;
       RemediationPlan.steps := steps';
       RemediationPlan.estimated_duration :=
         RemediationPlan.estimated_duration plan;
       RemediationPlan.execution_state := state';
       RemediationPlan.success := run_success r |} in
  (r, plan',
   remediation_completed (Models.id incident) (RemediationPlan.id plan)
     (run_success r) (run_error r)
     {| Models.execution_state := state';
        steps_completed :=
          length (filter (fun s => RemediationStep.success s = true) steps');
        total_steps := length steps';
        duration := completed_at - started_at |}).

(** One turn of the loop of [_execution_worker]: the wait for the queue
    times out, or the oldest pair is taken and its plan executed. *)
Definition _execution_worker (self : t) (started_at completed_at : datetime)
    (w : World) : t * list Event * World :=
  match Queue.get (execution_queue self) with
  | Queue.Pending => (self, [], w)
  | Queue.Done ((incident, plan), q) =>
      let '(r, _, ev) :=
        _execute_remediation_plan self incident plan
          started_at completed_at w in
      (set_execution_queue q self, [ev], world r)
  end.

(** The events published over successive turns of the worker loop, each
    with its two clock readings, while no request arrives.  The turns are
    taken one after the other, each plan run to its end before the next
    pair is taken, as one worker does; with several workers the plans are
    taken from the queue in the same order, but the events of different
    plans may be published in another order than given here. *)
Fixpoint drain (turns : list (datetime * datetime)) (self : t) (w : World)
  : list Event :=
  match turns with
  | [] => []
  | (started_at, completed_at) :: rest =>
      let '(self', events, w') :=
        _execution_worker self started_at completed_at w in
      events ++ drain rest self' w'
  end.

End Execution.

(** The log of a handled request. *)
Definition log_of (h : Handled) : list LogRecord :=
  match h with
  | Returned _ log => log
  | Suspended _ log => log
  end.

(** *** Sample data *)

(** A cluster on which [restart_pod] fails and every other handler
    succeeds. *)
Definition restart_fails (h : Handler) (_ : Incident)
    (_ : RemediationStep.t) (w : unit) : HandlerOutcome * unit :=
  match h with
  | _handle_restart_pod => (HandlerRaised "Failed to restart pod", w)
  | _ => (HandlerReturned "ok", w)
  end.

(** The same cluster, keeping a record of the waits: the action types of
    the steps whose handlers were awaited, in the order of the waits. *)
Definition restart_fails_recorded (h : Handler) (incident : Incident)
    (step : RemediationStep.t) (waits : list string)
  : HandlerOutcome * list string :=
  ((restart_fails h incident step tt).1,
   waits ++ [RemediationStep.action_type step]).

Definition step_of (action_type : string) (continue_on_error : bool)
  : RemediationStep.t :=
  {| RemediationStep.name := action_type;
     RemediationStep.description := "Execute " +:+ action_type;
     RemediationStep.action_type := action_type;
     RemediationStep.parameters := "{}";
     RemediationStep.timeout_seconds := 300;
     RemediationStep.continue_on_error := continue_on_error;
     RemediationStep.success := false;
     RemediationStep.output := None;
     RemediationStep.error_message := None |}.

Definition plan_of (steps : list RemediationStep.t) : RemediationPlan.t :=
  {| RemediationPlan.id := "p1";
     RemediationPlan.incident_id := "i1";
     RemediationPlan.steps := steps;
     RemediationPlan.estimated_duration := sum_timeouts steps;
     RemediationPlan.execution_state := "pending";
     RemediationPlan.success := false |}.

Definition some_incident : Incident :=
  {| id := "i1"; service := "frontend"; type := "high_memory";
     severity := CRITICAL; state := REMEDIATING; root_cause := None;
     remediation_result := None; updated_at := 0; resolved_at := None |}.

(** *** The executor at work *)


(** The plan a [remediation.completed] event is about. *)
Definition completed_plan_id (e : Event) : option string :=
  match e with
  | remediation_completed _ plan_id _ _ _ => Some plan_id
  | _ => None
  end.

(** What happens to an executor: a [remediation.request] is handled, or a
    worker takes a turn of its loop. *)
Inductive Activity : Type :=
| Request (incident : Incident) (analysis : Analysis) (plan_id : string)
| WorkerTurn (started_at completed_at : datetime).

Section Service.

Context {World : Type}.
Variable await_handler :
  Handler -> Incident -> RemediationStep.t -> World -> HandlerOutcome * World.

(** The executor after an activity, with the events published.  A handler
    suspended in [put] has changed nothing yet; its [put] completes like
    that of a request arriving when a slot is free. *)
Definition act (a : Activity) (self : t) (w : World)
  : t * list Event * World :=
  match a with
  | Request incident analysis plan_id =>
      match _handle_remediation_request self incident analysis plan_id with
      | Returned self' _ => (self', [], w)
      | Suspended _ _ => (self, [], w)
      end
  | WorkerTurn started_at completed_at =>
      _execution_worker await_handler self started_at completed_at w
  end.

Fixpoint serve (trace : list Activity) (self : t) (w : World)
  : t * list Event * World :=
  match trace with
  | [] => (self, [], w)
  | a :: rest =>
      let '(self', events, w') := act a self w in
      let '(self'', events', w'') := serve rest self' w' in
      (self'', events ++ events', w'')
  end.

End Service.

(** The queue of an executor is the one it was built with, and within its
    capacity when it has one. *)
Definition within_capacity (self : t) : Prop :=
  Queue.maxsize (execution_queue self) = Config.max_concurrent (config self)
  /\ (0 < Config.max_concurrent (config self) ->
      Queue.qsize (execution_queue self)
      <= Config.max_concurrent (config self)).

End Executor.

(** ** [orchestrator.py] *)

Module Orchestrator.

Import Models.

(** The state of an [IncidentOrchestrator]: the remediation section of its
    configuration, the incident registry and the two circuit breakers. *)
Record t : Type := {
  config : Config.RemediationConfig;
  incidents : gmap string Incident;
  running : bool;
  kubernetes : CircuitBreaker.t;
  gemini : CircuitBreaker.t
}.

(** [IncidentOrchestrator.__init__] *)
Definition init (config : Config.RemediationConfig) : t :=
  {| config := config;
     incidents := ∅;
     running := false;
     kubernetes := CircuitBreaker.init 5 60 2 "kubernetes";
     gemini := CircuitBreaker.init 3 30 2 "gemini" |}.

Definition set_incidents (m : gmap string Incident) (self : t) : t :=
  {| config := config self; incidents := m; running := running self;
     kubernetes := kubernetes self; gemini := gemini self |}.

Definition set_gemini (cb : CircuitBreaker.t) (self : t) : t :=
  {| config := config self; incidents := incidents self;
     running := running self; kubernetes := kubernetes self; gemini := cb |}.

(** [_should_remediate] *)
Definition _should_remediate (self : t) (incident : Incident)
    (analysis : Analysis) : bool :=
  if Config.dry_run (config self) then false
  else if bool_decide (severity incident ∈ [INFO; WARNING]) then false
  else if (default 0 (confidence analysis) <? 0.7)%float then false
  else if Config.require_approval (config self) then false
  else true.

(** [_handle_analysis_completed]: the orchestrator after the call and the
    events it published, in order. *)
Definition _handle_analysis_completed (clock : Clock) (self : t)
    (incident_id : string) (analysis : Analysis) : t * list Event :=
  match incidents self !! incident_id with
  | None => (self, [])
  | Some incident =>
      let incident := set_root_cause analysis incident in
      let incident := set_state REMEDIATING incident in
      let incident := set_updated_at (utc_now clock) incident in
      let update1 := dashboard_incident_update incident in
      if _should_remediate self incident analysis then
        (set_incidents (<[incident_id := incident]> (incidents self)) self,
         [update1; remediation_request incident analysis])
      else
        let incident := set_state RESOLVED incident in
        let incident := set_resolved_at (utc_now clock) incident in
        (set_incidents (<[incident_id := incident]> (incidents self)) self,
         [update1; dashboard_incident_update incident])
  end.

(** [_handle_remediation_completed] *)
Definition _handle_remediation_completed (clock : Clock) (self : t)
    (incident_id : string) (success : bool) (result : RemediationResult)
  : t * list Event :=
  match incidents self !! incident_id with
  | None => (self, [])
  | Some incident =>
      let incident :=
        if success
        then set_resolved_at (utc_now clock) (set_state RESOLVED incident)
        else set_state FAILED incident in
      let incident := set_remediation_result result incident in
      let incident := set_updated_at (utc_now clock) incident in
      (set_incidents (<[incident_id := incident]> (incidents self)) self,
       [dashboard_incident_update incident])
  end.

(** [_get_basic_remediation] *)
Definition _get_basic_remediation (incident : Incident) : list Action :=
  let act (a p : string) :=
    {| action := Some a; priority := Some p; estimated_time := None;
       parameters := None |} in
  let actions : gmap string (list Action) :=
    list_to_map
      [("high_cpu",
        [act "scale_replicas" "high"; act "check_cpu_limits" "medium"]);
       ("high_memory",
        [act "restart_pod" "high"; act "check_memory_limits" "medium"]);
       ("pod_restart",
        [act "check_pod_logs" "high"; act "verify_health_checks" "medium"])]
  in
  default [act "investigate_manually" "medium"]
    (actions !! Models.type incident).

(** The [basic_analysis] dict of [_handle_analysis_fallback], with the keys
    an [Analysis] carries. *)
Definition basic_analysis (incident : Incident) : Analysis :=
  {| summary :=
       "Basic analysis for " +:+ Models.type incident +:+ " in "
       +:+ service incident;
     confidence := Some 0.6%float;
     recommended_actions := Some (_get_basic_remediation incident) |}.

(** [_handle_analysis_fallback] *)
Definition _handle_analysis_fallback (clock : Clock) (self : t)
    (incident : Incident) : t * list Event :=
  _handle_analysis_completed clock self (Models.id incident)
    (basic_analysis incident).

(** [_handle_incident_detected]; [request_raises] tells whether publishing
    [analysis.request] raised. *)
Definition _handle_incident_detected (clock : Clock) (self : t)
    (incident : Incident) (request_raises : bool) : t * list Event :=
  let incident := set_state ANALYZING incident in
  let incident := set_updated_at (utc_now clock) incident in
  let self :=
    set_incidents (<[Models.id incident := incident]> (incidents self)) self
  in
  let update := dashboard_incident_update incident in
  let '(allowed, cb) :=
    CircuitBreaker.can_execute (local_now clock) (gemini self) in
  let self := set_gemini cb self in
  if allowed then
    if request_raises then
      let self :=
        set_gemini (CircuitBreaker.record_failure (local_now clock) cb) self
      in
      let '(self, events) := _handle_analysis_fallback clock self incident in
      (self, update :: events)
    else
      (set_gemini (CircuitBreaker.record_success cb) self,
       [update; analysis_request incident])
  else
    let '(self, events) := _handle_analysis_fallback clock self incident in
    (self, update :: events).

(** [_cleanup_old_incidents] *)
Definition _cleanup_old_incidents (clock : Clock) (self : t) : result t :=
  let cutoff_time := utc_now clock in
  cutoff_time ← replace_hour cutoff_time (hour cutoff_time - 24);
  let to_remove :=
    (filter
       (fun entry : string * Incident =>
          terminal (state entry.2) = true
          ∧ updated_at entry.2 < cutoff_time)
       (map_to_list (incidents self))).*1 in
  mret (set_incidents (foldr delete (incidents self) to_remove) self).

(** One turn of [_orchestration_loop], after its sleep: an exception of the
    turn is caught and logged, and the rest of the turn is lost. *)
Definition _orchestration_loop (clock : Clock) (self : t) : t * list Event :=
  match _cleanup_old_incidents clock self with
  | Ok self' => (self', [health_check])
  | Raise _ => (self, [])
  end.

(** What the orchestrator reacts to: an event of a topic it subscribed to
    (with, for [incident.detected], whether publishing the analysis request
    raises), or the periodic turn of its loop. *)
Inductive Activity : Type :=
| Delivered (e : Event) (request_raises : bool)
| Periodic.

Definition react (clock : Clock) (a : Activity) (self : t)
  : t * list Event :=
  match a with
  | Delivered (incident_detected incident) request_raises =>
      _handle_incident_detected clock self incident request_raises
  | Delivered (analysis_completed incident_id analysis) _ =>
      _handle_analysis_completed clock self incident_id analysis
  | Delivered (remediation_completed incident_id _ success _ result) _ =>
      _handle_remediation_completed clock self incident_id success result
  | Delivered _ _ => (self, [])
  | Periodic => _orchestration_loop clock self
  end.

(** The orchestrator after a sequence of activities. *)
Definition run (trace : list (Clock * Activity)) (self : t) : t :=
  fold_left (fun s ca => (react ca.1 ca.2 s).1) trace self.

(** The state of an incident of the registry, if it is there. *)
Definition state_of (self : t) (incident_id : string)
  : option IncidentState :=
  state <$> incidents self !! incident_id.

(** *** The policy and the lifecycle as the specification words them *)

(** Rules tried in a fixed order: the first rule whose condition holds
    gives the answer. *)
Fixpoint first_match (rules : list (bool * bool)) (otherwise : bool) : bool :=
  match rules with
  | [] => otherwise
  | (condition, answer) :: rest =>
      if condition then answer else first_match rest otherwise
  end.

(** "1. Global dry-run mode: do not remediate.  2. Severity is info or
    warning: do not remediate.  3. Analysis confidence < 0.7: do not
    remediate.  4. Global approval-required flag is set: do not remediate.
    5. Otherwise: remediate." *)
Definition should_remediate_spec (dry_run : bool) (severity : SeverityLevel)
    (confidence : float) (require_approval : bool) : bool :=
  first_match
    [(dry_run, false);
     (bool_decide (severity = INFO ∨ severity = WARNING), false);
     ((confidence <? 0.7)%float, false);
     (require_approval, false)]
    true.

(** "new -> analyzing -> {remediating -> {resolved, failed}, resolved}" *)
Inductive forward : IncidentState -> IncidentState -> Prop :=
| forward_detected : forward NEW ANALYZING
| forward_warranted : forward ANALYZING REMEDIATING
| forward_not_warranted : forward ANALYZING RESOLVED
| forward_succeeded : forward REMEDIATING RESOLVED
| forward_failed : forward REMEDIATING FAILED.

(** "[resolved_at] set if and only if state is a terminal state" *)
Definition resolved_at_iff_terminal (i : Incident) : Prop :=
  is_Some (resolved_at i) <-> terminal (state i) = true.

(** *** Notions the statements below use *)

(** Every resolved incident of the registry has its [resolved_at]. *)
Definition resolved_is_stamped (self : t) : Prop :=
  forall incident_id i,
    incidents self !! incident_id = Some i ->
    state i = RESOLVED -> is_Some (resolved_at i).

(** Whether an activity is the delivery of an event the orchestrator
    handles for the incident [incident_id]. *)
Definition concerns (incident_id : string) (a : Activity) : bool :=
  match a with
  | Delivered (incident_detected incident) _ =>
      bool_decide (Models.id incident = incident_id)
  | Delivered (analysis_completed i _) _ => bool_decide (i = incident_id)
  | Delivered (remediation_completed i _ _ _ _) _ =>
      bool_decide (i = incident_id)
  | _ => false
  end.

(** *** Sample data *)

Definition sample_incident (incident_id : string) (severity : SeverityLevel)
    (state : IncidentState) : Incident :=
  {| id := incident_id; service := "frontend"; type := "high_cpu";
     severity := severity; state := state; root_cause := None;
     remediation_result := None; updated_at := 0; resolved_at := None |}.

Definition sample_analysis (confidence : float) (actions : list Action)
  : Analysis :=
  {| summary := "Test analysis"; confidence := Some confidence;
     recommended_actions := Some actions |}.

Definition sample_result (execution_state : string) : RemediationResult :=
  {| Models.execution_state := execution_state; steps_completed := 0;
     total_steps := 1; duration := 30000000 |}.

(** An orchestrator with the default configuration and one incident. *)
Definition sample_orchestrator (i : Incident) : t :=
  set_incidents {[ Models.id i := i ]} (init Config.default).

(** Noon of the second day of the epoch, on both clocks. *)
Definition noon : Clock :=
  {| utc_now := 129600000000; local_now := 129600000000 |}.

End Orchestrator.

(** ** [analysis/analyzer.py]: the fallback actions and the cache *)

Module Analyzer.

Import Models.

(** [_get_fallback_actions] *)
Definition _get_fallback_actions (incident : Incident) : list Action :=
  let act (a p t params : string) :=
    {| action := Some a; priority := Some p; estimated_time := Some t;
       parameters := Some params |} in
  let actions : gmap string (list Action) :=
    list_to_map
      [("high_cpu",
        [act "scale_replicas" "high" "2m" "{'replicas': 2}";
         act "check_cpu_limits" "medium" "5m" "{}"]);
       ("high_memory",
        [act "restart_pod" "high" "1m" "{}";
         act "check_memory_limits" "medium" "5m" "{}"]);
       ("high_restart_count",
        [act "check_pod_logs" "high" "5m" "{}";
         act "verify_health_checks" "medium" "10m" "{}"])]
  in
  default [act "investigate_manually" "medium" "15m" "{}"]
    (actions !! Models.type incident).

(** The dict [analysis_cache], in the order of insertion of its keys. *)
Definition Cache : Type := list (string * Analysis).

(** [cache_key in self.analysis_cache] and [self.analysis_cache[cache_key]] *)
Fixpoint cache_get (key : string) (cache : Cache) : option Analysis :=
  match cache with
  | [] => None
  | (k, v) :: rest => if decide (k = key) then Some v else cache_get key rest
  end.

(** [self.analysis_cache[cache_key] = analysis]: the value of a key the dict
    has is replaced where it is, a new key comes last. *)
Fixpoint cache_set (key : string) (analysis : Analysis) (cache : Cache)
  : Cache :=
  match cache with
  | [] => [(key, analysis)]
  | (k, v) :: rest =>
      if decide (k = key) then (k, analysis) :: rest
      else (k, v) :: cache_set key analysis rest
  end.

(** [_cleanup_cache] *)
Definition _cleanup_cache (cache : Cache) : Cache :=
  if (100 <? length cache)%nat then
    let oldest_keys := take 50 cache.*1 in
    filter (fun entry : string * Analysis => entry.1 ∉ oldest_keys) cache
  else cache.

(** [_handle_analysis_request], from the cache key on: the cache after the
    call and the event published.  [cache_key] is what [_get_cache_key]
    gives for the incident and [analysis] what [_analyze_incident] returns
    when it is called. *)
Definition _handle_analysis_request (cache : Cache) (incident : Incident)
    (cache_key : string) (analysis : Analysis) : Cache * list Event :=
  match cache_get cache_key cache with
  | Some cached_analysis =>
      (cache, [analysis_completed (Models.id incident) cached_analysis])
  | None =>
      let cache := cache_set cache_key analysis cache in
      let cache := _cleanup_cache cache in
      (cache, [analysis_completed (Models.id incident) analysis])
  end.

End Analyzer.

(** ** [monitoring/detector.py]: the metrics history *)

Module Detector.

(** Modelled from the spec: the dataclass [ServiceMetrics] of
    [core/models.py] ("cpu/memory fractions, pod/ready-pod counts, restart
    count, request/error rate"). *)
Record ServiceMetrics : Type := {
  service : string;
  cpu_usage : float;
  memory_usage : float;
  pod_count : Z;
  ready_pods : Z;
  restart_count : Z;
  error_rate : float
}.

(** The body of the loop of [_store_metrics_history] for one snapshot. *)
Definition store_one (history : gmap string (list ServiceMetrics))
    (metric : ServiceMetrics) : gmap string (list ServiceMetrics) :=
  let samples := default [] (history !! service metric) ++ [metric] in
  let samples :=
    if (100 <? length samples)%nat then drop 1 samples else samples in
  <[service metric := samples]> history.

(** [_store_metrics_history] *)
Definition _store_metrics_history
    (history : gmap string (list ServiceMetrics))
    (metrics : list ServiceMetrics) : gmap string (list ServiceMetrics) :=
  fold_left store_one metrics history.

End Detector.

(** * Properties *)

(** ** The circuit breaker *)

Module CircuitBreakerFacts.

Import CircuitBreaker.

Lemma init_counters_ok ft rt st n : counters_ok (init ft rt st n).
Proof. split; simpl; lia. Qed.

Lemma record_failure_counters_ok now cb :
  counters_ok cb -> counters_ok (record_failure now cb).
Proof.
  intros [Hf Hs]. unfold record_failure, counters_ok; simpl.
  destruct (state cb); simpl;
    try destruct (failure_threshold cb <=? failure_count cb + 1); simpl; lia.
Qed.

Lemma record_success_counters_ok cb :
  counters_ok cb -> counters_ok (record_success cb).
Proof.
  intros [Hf Hs]. unfold record_success, counters_ok.
  destruct (state cb); simpl;
    try destruct (success_threshold cb <=? success_count cb + 1); simpl; lia.
Qed.

Lemma can_execute_counters_ok now cb :
  counters_ok cb -> counters_ok (can_execute now cb).2.
Proof.
  intros [Hf Hs]. unfold can_execute, counters_ok.
  destruct (state cb); simpl; try lia.
  destruct (last_failure_time cb) as [last|]; simpl; try lia.
  destruct (timedelta_seconds (reset_timeout cb) <=? now - last); simpl; lia.
Qed.

Lemma record_failure_settings now cb :
  same_settings (record_failure now cb) cb.
Proof.
  unfold same_settings, record_failure; simpl.
  destruct (state cb); simpl;
    try destruct (failure_threshold cb <=? failure_count cb + 1); auto.
Qed.

Lemma record_failure_last now cb :
  last_failure_time (record_failure now cb) = Some now.
Proof.
  unfold record_failure; simpl.
  destruct (state cb); simpl;
    try destruct (failure_threshold cb <=? failure_count cb + 1); auto.
Qed.

(** An open breaker stays open under further failures. *)
Lemma record_failure_open now cb :
  state cb = OPEN -> state (record_failure now cb) = OPEN.
Proof. intros H. unfold record_failure; simpl. rewrite H. exact H. Qed.

(** [half_open -> open] on any failure. *)
Lemma record_failure_half_open now cb :
  state cb = HALF_OPEN -> state (record_failure now cb) = OPEN.
Proof. intros H. unfold record_failure; simpl. now rewrite H. Qed.

(** A failure of a closed breaker: the count goes up by one, and the
    breaker opens exactly when the count reaches the threshold. *)
Lemma record_failure_closed now cb :
  state cb = CLOSED ->
  failure_count (record_failure now cb) = failure_count cb + 1
  /\ (failure_threshold cb <= failure_count cb + 1 ->
      state (record_failure now cb) = OPEN)
  /\ (failure_count cb + 1 < failure_threshold cb ->
      state (record_failure now cb) = CLOSED).
Proof.
  intros H. unfold record_failure; simpl. rewrite H.
  destruct (Z.leb_spec (failure_threshold cb) (failure_count cb + 1));
    simpl; repeat split; auto; lia.
Qed.

Lemma record_failures_snoc ts now cb :
  record_failures (ts ++ [now]) cb = record_failure now (record_failures ts cb).
Proof. unfold record_failures. now rewrite fold_left_app. Qed.

Lemma record_failures_settings ts cb :
  same_settings (record_failures ts cb) cb.
Proof.
  induction ts as [|now ts IH] using rev_ind.
  - repeat split.
  - rewrite record_failures_snoc.
    destruct (record_failure_settings now (record_failures ts cb))
      as (H1 & H2 & H3).
    destruct IH as (I1 & I2 & I3).
    repeat split; congruence.
Qed.

(** From a closed breaker, [ts] failures in a row leave it closed with the
    count raised by their number, still under the threshold, or open. *)
Lemma record_failures_closed ts cb :
  state cb = CLOSED ->
  let cb' := record_failures ts cb in
  (state cb' = CLOSED
   /\ failure_count cb' = failure_count cb + Z.of_nat (length ts)
   /\ (ts <> [] -> failure_count cb' < failure_threshold cb))
  \/ state cb' = OPEN.
Proof.
  intros Hc. induction ts as [|now ts IH] using rev_ind; simpl.
  - left. repeat split; [exact Hc | lia | congruence].
  - rewrite record_failures_snoc.
    destruct (record_failures_settings ts cb) as (S1 & _ & _).
    destruct IH as [(Hs & Hn & _) | Ho].
    + destruct (record_failure_closed now _ Hs) as (K1 & K2 & K3).
      rewrite length_app, Nat2Z.inj_add; simpl.
      destruct (Z.le_gt_cases (failure_threshold cb)
                  (failure_count (record_failures ts cb) + 1)).
      * right. apply K2. lia.
      * left. repeat split; [apply K3; lia | lia | intros _; lia].
    + right. now apply record_failure_open.
Qed.

(** Once the count of a closed breaker reaches the threshold it is open. *)
Lemma record_failures_opens ts now cb :
  state cb = CLOSED ->
  0 <= failure_count cb ->
  Z.of_nat (length (ts ++ [now])) = failure_threshold cb ->
  state (record_failures (ts ++ [now]) cb) = OPEN.
Proof.
  intros Hc Hf Hn.
  destruct (record_failures_closed (ts ++ [now]) cb Hc)
    as [(_ & Hcount & Hlt) | Ho]; [|exact Ho].
  assert (ts ++ [now] <> []) as Hne by (destruct ts; discriminate).
  specialize (Hlt Hne). lia.
Qed.

(** Successes of a half-open breaker: it stays half-open with the count
    raised and under the threshold, or it is closed with no failure
    counted. *)
Lemma record_successes_half_open n cb :
  state cb = HALF_OPEN ->
  let cb' := record_successes n cb in
  success_threshold cb' = success_threshold cb
  /\ ((state cb' = HALF_OPEN
       /\ success_count cb' = success_count cb + Z.of_nat n
       /\ (n <> 0%nat -> success_count cb' < success_threshold cb))
      \/ (state cb' = CLOSED /\ failure_count cb' = 0)).
Proof.
  intros Hh. induction n as [|n IH]; simpl.
  - split; [reflexivity|]. left. repeat split; [exact Hh | lia | congruence].
  - destruct IH as (Hst & IH). fold (record_successes n cb) in *.
    set (c := record_successes n cb) in *.
    destruct IH as [(Hs & Hn & _) | (Hs & Hz)];
      unfold record_success; rewrite Hs; simpl.
    + destruct (Z.leb_spec (success_threshold c) (success_count c + 1));
        simpl.
      * split; [exact Hst|]. right. split; reflexivity.
      * split; [exact Hst|]. left.
        repeat split; [exact Hs | lia | intros _; lia].
    + split; [exact Hst|]. right. split; [exact Hs | reflexivity].
Qed.

(** [half_open -> closed] after [success_threshold] successes. *)
Lemma record_successes_closes cb :
  state cb = HALF_OPEN ->
  0 <= success_count cb ->
  1 <= success_threshold cb ->
  let cb' := record_successes (Z.to_nat (success_threshold cb)) cb in
  state cb' = CLOSED /\ failure_count cb' = 0.
Proof.
  intros Hh Hs Ht.
  destruct (record_successes_half_open (Z.to_nat (success_threshold cb)) cb Hh)
    as (_ & [(_ & Hn & Hlt) | Hc]); [|exact Hc].
  assert (Z.to_nat (success_threshold cb) <> 0%nat) as Hne by lia.
  specialize (Hlt Hne). lia.
Qed.

(** C2.  From a closed breaker, [failure_threshold] failures in a row (the
    last one at [t_last]) open it: [can_execute] answers false for as long
    as less than [reset_timeout] has passed since [t_last], and leaves the
    breaker as it is; at the first call once [reset_timeout] has passed it
    answers true and the breaker is half-open, with its success count at
    zero.  A half-open breaker is closed, with its failure count at zero,
    after [success_threshold] successes in a row (for a threshold of at
    least one), and any failure opens it again.  The breaker is one whose
    [reset_timeout] a [timedelta] can hold: the open breaker of another one
    raises [OverflowError] where it compares the elapsed time. *)
Theorem circuit_breaker_cycle (cb : t) (ts : list datetime)
    (t_last : datetime) :
  state cb = CLOSED ->
  0 <= failure_count cb ->
  timedelta_representable (reset_timeout cb) = true ->
  Z.of_nat (length (ts ++ [t_last])) = failure_threshold cb ->
  let opened := record_failures (ts ++ [t_last]) cb in
  (forall now,
      now - t_last < timedelta_seconds (reset_timeout cb) ->
      can_execute now opened = (false, opened))
  /\ (forall now,
        timedelta_seconds (reset_timeout cb) <= now - t_last ->
        (can_execute now opened).1 = true
        /\ state (can_execute now opened).2 = HALF_OPEN
        /\ success_count (can_execute now opened).2 = 0
        /\ same_settings (can_execute now opened).2 cb)
  /\ (forall half,
        state half = HALF_OPEN ->
        0 <= success_count half ->
        1 <= success_threshold half ->
        let closed :=
          record_successes (Z.to_nat (success_threshold half)) half in
        state closed = CLOSED /\ failure_count closed = 0)
  /\ (forall half now,
        state half = HALF_OPEN -> state (record_failure now half) = OPEN).
Proof.
  intros Hc Hf Hrt Hn opened.
  assert (state opened = OPEN) as Ho
    by (apply record_failures_opens; assumption).
  assert (last_failure_time opened = Some t_last) as Hl
    by (unfold opened; rewrite record_failures_snoc;
        apply record_failure_last).
  destruct (record_failures_settings (ts ++ [t_last]) cb) as (S1 & S2 & S3).
  fold opened in S1, S2, S3.
  repeat split.
  - intros now Hnow. unfold can_execute. rewrite Ho, Hl, S2.
    destruct (Z.leb_spec (timedelta_seconds (reset_timeout cb))
                (now - t_last)); [lia | reflexivity].
  - unfold can_execute. rewrite Ho, Hl, S2.
    destruct (Z.leb_spec (timedelta_seconds (reset_timeout cb))
                (now - t_last)); [reflexivity | lia].
  - unfold can_execute. rewrite Ho, Hl, S2.
    destruct (Z.leb_spec (timedelta_seconds (reset_timeout cb))
                (now - t_last)); [reflexivity | lia].
  - unfold can_execute. rewrite Ho, Hl, S2.
    destruct (Z.leb_spec (timedelta_seconds (reset_timeout cb))
                (now - t_last)); [reflexivity | lia].
  - unfold can_execute. rewrite Ho, Hl, S2.
    destruct (Z.leb_spec (timedelta_seconds (reset_timeout cb))
                (now - t_last)); [exact S1 | lia].
  - unfold can_execute. rewrite Ho, Hl, S2.
    destruct (Z.leb_spec (timedelta_seconds (reset_timeout cb))
                (now - t_last)); [exact S2 | lia].
  - unfold can_execute. rewrite Ho, Hl, S2.
    destruct (Z.leb_spec (timedelta_seconds (reset_timeout cb))
                (now - t_last)); [exact S3 | lia].
  - apply record_successes_closes; assumption.
  - apply record_successes_closes; assumption.
  - intros half now. apply record_failure_half_open.
Qed.

(** The breaker of the reasoning service (threshold 3, timeout 30 s, two
    trial successes) after failures at seconds 1, 2 and 3. *)
Lemma circuit_breaker_cycle_witness :
  let cb := init 3 30 2 "gemini" in
  let opened :=
    record_failures ([1000000; 2000000] ++ [3000000]) cb in
  (forall now,
      now - 3000000 < timedelta_seconds (reset_timeout cb) ->
      can_execute now opened = (false, opened))
  /\ (forall now,
        timedelta_seconds (reset_timeout cb) <= now - 3000000 ->
        (can_execute now opened).1 = true
        /\ state (can_execute now opened).2 = HALF_OPEN
        /\ success_count (can_execute now opened).2 = 0
        /\ same_settings (can_execute now opened).2 cb)
  /\ (forall half,
        state half = HALF_OPEN ->
        0 <= success_count half ->
        1 <= success_threshold half ->
        let closed :=
          record_successes (Z.to_nat (success_threshold half)) half in
        state closed = CLOSED /\ failure_count closed = 0)
  /\ (forall half now,
        state half = HALF_OPEN -> state (record_failure now half) = OPEN).
Proof.
  apply (circuit_breaker_cycle (init 3 30 2 "gemini")
           [1000000; 2000000] 3000000).
  - reflexivity.
  - simpl. lia.
  - reflexivity.
  - reflexivity.
Defined.

(** The same breaker, run: open after three failures, refusing at second
    20, half-open at second 33, closed after two successes. *)
Example gemini_breaker_run :
  let opened :=
    record_failures [1000000; 2000000; 3000000] (init 3 30 2 "gemini") in
  state opened = OPEN
  /\ (can_execute 20000000 opened).1 = false
  /\ (can_execute 33000000 opened).1 = true
  /\ state (record_successes 2 (can_execute 33000000 opened).2) = CLOSED
  /\ failure_count (record_successes 2 (can_execute 33000000 opened).2) = 0.
Proof. vm_compute. repeat split. Qed.

End CircuitBreakerFacts.

(** ** The remediation executor *)

Module ExecutorFacts.

Import Models Executor.

(** *** The time-estimate parser *)

Example parse_5m : _parse_time_estimate "5m" = Ok 300.
Proof. reflexivity. Qed.

Example parse_30s : _parse_time_estimate "30s" = Ok 30.
Proof. reflexivity. Qed.

Example parse_1h_upper_padded : _parse_time_estimate " 1H " = Ok 3600.
Proof. reflexivity. Qed.

Example parse_no_unit : _parse_time_estimate "soon" = Ok 300.
Proof. reflexivity. Qed.

Example parse_empty : _parse_time_estimate "" = Ok 300.
Proof. reflexivity. Qed.

(** The three units, and the default for a string that ends in none of
    them. *)
Lemma parse_time_estimate_units (time_str : string) :
  let s := PyStr.strip (PyStr.lower time_str) in
  let n := PyStr.int (PyStr.drop_last s) in
  (PyStr.endswith s "s" = true -> _parse_time_estimate time_str = n)
  /\ (PyStr.endswith s "m" = true ->
      _parse_time_estimate time_str = (fun k => k * 60) <$> n)
  /\ (PyStr.endswith s "h" = true ->
      _parse_time_estimate time_str = (fun k => k * 3600) <$> n)
  /\ (PyStr.endswith s "s" = false -> PyStr.endswith s "m" = false ->
      PyStr.endswith s "h" = false -> _parse_time_estimate time_str = Ok 300).
Proof.
  intros s n. unfold _parse_time_estimate. fold s. fold n.
  assert (forall a b, PyStr.endswith s a = true -> a <> b ->
                      PyStr.endswith s b = false) as Hex.
  { intros a b Ha Hab. unfold PyStr.endswith in *.
    destruct (PyStr.last_char s) as [d|]; [|discriminate].
    apply Ascii.eqb_eq in Ha. subst d. now apply Ascii.eqb_neq. }
  repeat split.
  - intros H. now rewrite H.
  - intros H. rewrite (Hex _ "s"%char H), H by discriminate.
    now destruct n.
  - intros H.
    rewrite (Hex _ "s"%char H), (Hex _ "m"%char H), H by discriminate.
    now destruct n.
  - intros H1 H2 H3. now rewrite H1, H2, H3.
Qed.

(** The parser raises exactly when the string ends in a unit and what
    stands before the unit is not an integer literal: it is not total. *)
Lemma parse_time_estimate_raises_iff (time_str : string) :
  let s := PyStr.strip (PyStr.lower time_str) in
  _parse_time_estimate time_str = Raise ValueError
  <-> (PyStr.endswith s "s" || PyStr.endswith s "m" || PyStr.endswith s "h"
       = true
       /\ PyStr.int (PyStr.drop_last s) = Raise ValueError).
Proof.
  intros s. unfold _parse_time_estimate. fold s.
  destruct (PyStr.endswith s "s"); simpl.
  { split; [intros H; now split | now intros [_ H]]. }
  destruct (PyStr.endswith s "m"); simpl.
  { destruct (PyStr.int (PyStr.drop_last s)) as [k|[]]; simpl;
      split; try (intros [_ H]); try intros H; try discriminate;
      try split; auto. }
  destruct (PyStr.endswith s "h"); simpl.
  { destruct (PyStr.int (PyStr.drop_last s)) as [k|[]]; simpl;
      split; try (intros [_ H]); try intros H; try discriminate;
      try split; auto. }
  split; [discriminate | now intros [H _]].
Qed.

(** C8, at "5 mins": the string ends in the unit [s], what stands before
    it is no integer, and [int] raises [ValueError] where the default of
    300 seconds was due. *)
Theorem parse_time_estimate_raises :
  _parse_time_estimate "5 mins" = Raise ValueError
  /\ _parse_time_estimate "1.5h" = Raise ValueError
  /\ _parse_time_estimate "s" = Raise ValueError.
Proof. repeat split. Qed.

(** What the exception costs: the request of an analysis whose action
    carries such an estimate is given up with an error logged, and nothing
    is queued. *)
Example unparseable_estimate_drops_request :
  let a := {| action := Some "restart_pod"; priority := Some "high";
              estimated_time := Some "5 mins"; parameters := None |} in
  let analysis := {| summary := ""; confidence := Some 0.9%float;
                     recommended_actions := Some [a] |} in
  let incident := {| id := "i1"; service := "frontend"; type := "high_memory";
                     severity := CRITICAL; state := REMEDIATING;
                     root_cause := Some analysis;
                     remediation_result := None;
                     updated_at := 0; resolved_at := None |} in
  let self := init Config.default in
  _handle_remediation_request self incident analysis "p1"
  = Returned self
      [(LOG_INFO, "Creating remediation plan for incident i1");
       (LOG_ERROR, "Error handling remediation request: ValueError")].
Proof. reflexivity. Qed.

(** *** Admission to the execution queue *)

(** [Queue.put] never raises: it completes or it suspends its caller. *)
Lemma put_never_raises {A : Type} (q : Queue.t A) (item : A) (e : PyError) :
  Queue.put q item <> Queue.Done (Raise e).
Proof. unfold Queue.put. destruct (Queue.full q); discriminate. Qed.

Lemma put_full {A : Type} (q : Queue.t A) (item : A) :
  Queue.full q = true -> Queue.put q item = Queue.Pending.
Proof. unfold Queue.put. now intros ->. Qed.

(** With the queue full, a request whose plan has a step leaves the handler
    suspended in [put], holding the pair: the plan is not dropped, no
    warning is logged, and the handler has not returned. *)
Lemma full_queue_suspends (self : t) (incident : Incident)
    (analysis : Analysis) (plan_id : string) (plan : RemediationPlan.t)
    (log : list LogRecord) :
  Queue.full (execution_queue self) = true ->
  _create_remediation_plan incident analysis plan_id = (Ok plan, log) ->
  RemediationPlan.steps plan <> [] ->
  _handle_remediation_request self incident analysis plan_id
  = Suspended (incident, plan)
      ((LOG_INFO,
        "Creating remediation plan for incident " +:+ Models.id incident)
       :: log).
Proof.
  intros Hfull Hplan Hsteps. unfold _handle_remediation_request.
  rewrite Hplan. destruct (RemediationPlan.steps plan); [congruence|].
  now rewrite put_full.
Qed.

(** The branch that logs the full queue is never taken. *)
Lemma queue_full_warning_never_logged (self : t) (incident : Incident)
    (analysis : Analysis) (plan_id : string) :
  (LOG_WARNING,
   "Execution queue full, skipping remediation for " +:+ Models.id incident)
  ∉ log_of (_handle_remediation_request self incident analysis plan_id).
Proof.
  unfold _handle_remediation_request, _create_remediation_plan.
  destruct (default [] (recommended_actions analysis)) as [|a rest].
  - simpl. intros H. repeat (apply elem_of_cons in H as [H|H]; [discriminate|]).
    now apply elem_of_nil in H.
  - destruct (make_steps 0 (a :: rest)) as [steps|e]; simpl.
    + destruct steps as [|s steps].
      * intros H.
        repeat (apply elem_of_cons in H as [H|H]; [discriminate|]).
        now apply elem_of_nil in H.
      * unfold Queue.put. destruct (Queue.full (execution_queue self)); simpl.
        -- intros H.
           repeat (apply elem_of_cons in H as [H|H]; [discriminate|]).
           now apply elem_of_nil in H.
        -- intros H.
           repeat (apply elem_of_cons in H as [H|H]; [discriminate|]).
           now apply elem_of_nil in H.
    + intros H.
      repeat (apply elem_of_cons in H as [H|H]; [discriminate|]).
      now apply elem_of_nil in H.
Qed.

(** C4, run: an executor with one slot, taken; a second request whose plan
    has one step.  The handler is suspended in [put]; it has neither
    returned nor logged that the queue is full. *)
Theorem full_queue_blocks_requester :
  let a := {| action := Some "restart_pod"; priority := Some "high";
              estimated_time := Some "1m"; parameters := None |} in
  let analysis := {| summary := ""; confidence := Some 0.9%float;
                     recommended_actions := Some [a] |} in
  let incident id :=
    {| id := id; service := "frontend"; type := "high_memory";
       severity := CRITICAL; state := REMEDIATING;
       root_cause := Some analysis; remediation_result := None;
       updated_at := 0; resolved_at := None |} in
  let config :=
    {| Config.dry_run := false; Config.require_approval := false;
       Config.max_concurrent := 1; Config.timeout_seconds := 300;
       Config.enable_rollback := true;
       Config.max_blast_radius := 0.8%float |} in
  exists self1 log1 plan2,
    _handle_remediation_request (init config) (incident "i1") analysis "p1"
    = Returned self1 log1
    /\ Queue.full (execution_queue self1) = true
    /\ _handle_remediation_request self1 (incident "i2") analysis "p2"
       = Suspended (incident "i2", plan2)
           [(LOG_INFO, "Creating remediation plan for incident i2")].
Proof.
  simpl. eexists _, _, _. repeat split.
Qed.

(** *** The execution of a plan *)

Section PlanExecution.

Context {World : Type}.
Variable await_handler :
  Handler -> Incident -> RemediationStep.t -> World -> HandlerOutcome * World.

(** [_execute_step] returns the step's success, which it also records on
    the step, and changes nothing of the step but its outcome. *)
Lemma execute_step_outcome (incident : Incident) (step : RemediationStep.t)
    (w : World) :
  let '(ok, step', _) := _execute_step await_handler incident step w in
  RemediationStep.success step' = ok /\ RemediationStep.same_step step' step.
Proof.
  unfold _execute_step.
  destruct (_register_action_handlers !! RemediationStep.action_type step)
    as [h|]; [|now repeat split].
  destruct (await_handler h incident step w) as [[result| |message] w'];
    now repeat split.
Qed.

(** The loop over the steps: the steps it called [_execute_step] on are the
    first steps of the list, in the order of the list, and the steps it
    never reached are the rest of the list.  When it reports success it
    reached every step and none was aborting; when it reports failure the
    last step it executed is aborting and no step before it is. *)
Lemma execute_each_step_run (incident : Incident)
    (steps : list RemediationStep.t) (w : World) :
  let r := execute_each_step await_handler incident steps w in
  (exists first_steps,
      steps = first_steps ++ skipped r
      /\ Forall2 RemediationStep.same_step (executed r) first_steps)
  /\ (run_success r = true ->
      skipped r = []
      /\ Forall (fun s => RemediationStep.aborting s = false) (executed r))
  /\ (run_success r = false ->
      exists before s,
        executed r = before ++ [s]
        /\ RemediationStep.aborting s = true
        /\ Forall (fun s => RemediationStep.aborting s = false) before).
Proof.
  revert w. induction steps as [|step rest IH]; intros w; simpl.
  - split; [|split].
    + exists []. split; [reflexivity | constructor].
    + intros _. split; [reflexivity | constructor].
    + discriminate.
  - pose proof (execute_step_outcome incident step w) as Hstep.
    destruct (_execute_step await_handler incident step w)
      as [[ok step'] w'].
    destruct Hstep as [Hok Hsame].
    assert (RemediationStep.aborting step'
            = negb ok && negb (RemediationStep.continue_on_error step'))
      as Hab by (unfold RemediationStep.aborting; now rewrite Hok).
    destruct (negb ok && negb (RemediationStep.continue_on_error step'))
      eqn:Habort; simpl.
    + split; [|split].
      * exists [step]. split; [reflexivity|].
        constructor; [exact Hsame | constructor].
      * discriminate.
      * intros _. exists [], step'.
        split; [reflexivity|]. split; [exact Hab | constructor].
    + destruct (IH w') as ((first_steps & Heq & Hall) & Hsucc & Hfail).
      split; [|split].
      * exists (step :: first_steps). split.
        -- simpl. now rewrite <- Heq.
        -- now constructor.
      * intros Hs. destruct (Hsucc Hs) as [Hsk Hex].
        split; [exact Hsk | now constructor].
      * intros Hf. destruct (Hfail Hf) as (before & s & He & Hs & Hb).
        exists (step' :: before), s.
        split; [simpl; now rewrite He|].
        split; [exact Hs | now constructor].
Qed.

(** What a call of [_execute_step] awaits and what it makes of it: the
    handler of the step's action type, once, on the cluster as it is; the
    step succeeds exactly when the handler returns; with no handler for
    the action type nothing is awaited and the cluster is left alone. *)
Lemma execute_step_awaits (incident : Incident) (step : RemediationStep.t)
    (w : World) :
  let out := _execute_step await_handler incident step w in
  let awaited := await_in_list_order await_handler incident [step] w in
  exists outcome,
    awaited = ([outcome], out.2)
    /\ (out.1.1 = true <-> exists result, outcome = Some (HandlerReturned result)).
Proof.
  unfold _execute_step. simpl.
  destruct (_register_action_handlers !! RemediationStep.action_type step)
    as [h|].
  - destruct (await_handler h incident step w) as [[result| |message] w'];
      simpl; eexists; (split; [reflexivity|]);
      (split; [intros H; try discriminate H; eauto
              | intros [r H]; try discriminate H; reflexivity]).
  - simpl. eexists. split; [reflexivity|].
    split; [discriminate | intros [r H]; discriminate H].
Qed.

Lemma await_in_list_order_cons (incident : Incident)
    (step : RemediationStep.t) (rest : list RemediationStep.t) (w : World) :
  await_in_list_order await_handler incident (step :: rest) w
  = let first := await_in_list_order await_handler incident [step] w in
    let others := await_in_list_order await_handler incident rest first.2 in
    (first.1 ++ others.1, others.2).
Proof.
  simpl.
  destruct (_register_action_handlers !! RemediationStep.action_type step)
    as [h|].
  - destruct (await_handler h incident step w) as [o w']. simpl.
    now destruct (await_in_list_order await_handler incident rest w').
  - simpl. now destruct (await_in_list_order await_handler incident rest w).
Qed.

Lemma execute_each_step_awaits (incident : Incident)
    (steps : list RemediationStep.t) (w : World) :
  let r := execute_each_step await_handler incident steps w in
  exists first_steps,
    steps = first_steps ++ skipped r
    /\ Forall2 RemediationStep.same_step (executed r) first_steps
    /\ world r
       = (await_in_list_order await_handler incident first_steps w).2
    /\ Forall2
         (fun s outcome =>
            RemediationStep.success s = true
            <-> exists result, outcome = Some (HandlerReturned result))
         (executed r)
         (await_in_list_order await_handler incident first_steps w).1.
Proof.
  revert w. induction steps as [|step rest IH]; intros w.
  - exists []. simpl. repeat split; constructor.
  - cbn [execute_each_step].
    pose proof (execute_step_outcome incident
                  step w) as Hstep.
    destruct (execute_step_awaits incident step w) as (o & Haw & Hok).
    destruct (_execute_step await_handler incident step w)
      as [[ok step'] w'].
    destruct Hstep as [Hsucc Hsame]. cbn [fst snd] in Haw, Hok.
    destruct (negb ok && negb (RemediationStep.continue_on_error step')).
    + exists [step]. cbn [executed skipped world]. rewrite Haw.
      split; [reflexivity|].
      split; [constructor; [exact Hsame | constructor]|].
      split; [reflexivity|].
      constructor; [now rewrite Hsucc | constructor].
    + destruct (IH w') as (first_steps & Heq & Hall & Hworld & Hout).
      exists (step :: first_steps). cbn [executed skipped world].
      rewrite await_in_list_order_cons, Haw. cbn [fst snd app].
      split; [simpl; now rewrite <- Heq|].
      split; [now constructor|].
      split; [exact Hworld|].
      constructor; [now rewrite Hsucc | exact Hout].
Qed.

(** C3.  With dry-run off, [_execute_remediation_plan] calls
    [_execute_step] on the steps of the plan in list order, from the first
    one on: the handlers of these steps, and of no other step, are awaited
    on the cluster one after the other in this order, and a step is marked
    succeeded exactly when its handler returned.  It stops at the first
    aborting step (failed, with [continue_on_error] false): that step is
    the last one executed, every later step is left as it was and its
    handler is not awaited, and the plan's success flag, also the one of
    the published event, is false.  When no executed step is aborting,
    every step of the plan is executed and the success flag is true. *)
Theorem plan_stops_at_first_aborting_step (self : t) (incident : Incident)
    (plan : RemediationPlan.t) (started_at completed_at : datetime)
    (w : World) :
  Config.dry_run (config self) = false ->
  let out :=
    _execute_remediation_plan await_handler self incident plan
      started_at completed_at w in
  let r := out.1.1 in
  (exists first_steps,
      RemediationPlan.steps plan = first_steps ++ skipped r
      /\ Forall2 RemediationStep.same_step (executed r) first_steps
      /\ world r
         = (await_in_list_order await_handler incident first_steps w).2
      /\ Forall2
           (fun s outcome =>
              RemediationStep.success s = true
              <-> exists result, outcome = Some (HandlerReturned result))
           (executed r)
           (await_in_list_order await_handler incident first_steps w).1)
  /\ RemediationPlan.steps out.1.2 = executed r ++ skipped r
  /\ RemediationPlan.success out.1.2 = run_success r
  /\ (exists error result,
        out.2 = remediation_completed (Models.id incident)
                  (RemediationPlan.id plan) (run_success r) error result)
  /\ (Exists (fun s => RemediationStep.aborting s = true) (executed r) ->
      run_success r = false
      /\ exists before s,
           executed r = before ++ [s]
           /\ RemediationStep.aborting s = true
           /\ Forall (fun s => RemediationStep.aborting s = false) before)
  /\ (Forall (fun s => RemediationStep.aborting s = false) (executed r) ->
      run_success r = true /\ skipped r = []).
Proof.
  intros Hdry out r.
  assert (r = execute_each_step await_handler incident
                (RemediationPlan.steps plan) w) as Hr.
  { unfold r, out, _execute_remediation_plan. now rewrite Hdry. }
  destruct (execute_each_step_run incident (RemediationPlan.steps plan) w)
    as (_ & Hsucc & Hfail).
  pose proof (execute_each_step_awaits incident (RemediationPlan.steps plan)
                w) as Hawaited.
  cbv zeta in Hawaited.
  rewrite <- Hr in Hawaited, Hsucc, Hfail.
  split; [exact Hawaited|].
  split; [unfold r, out, _execute_remediation_plan; now rewrite Hdry|].
  split; [reflexivity|].
  split; [unfold out, _execute_remediation_plan; eauto|].
  split.
  - intros Hex. destruct (run_success r) eqn:Hs.
    + destruct (Hsucc eq_refl) as [_ Hall].
      apply Exists_exists in Hex as (s & Hin & Hs').
      rewrite Forall_forall in Hall. specialize (Hall s Hin). congruence.
    + split; [reflexivity | now apply Hfail].
  - intros Hall. destruct (run_success r) eqn:Hs.
    + split; [reflexivity | now apply Hsucc].
    + destruct (Hfail eq_refl) as (before & s & He & Hs' & _).
      rewrite He in Hall. apply Forall_app in Hall as [_ Hall].
      inversion Hall; congruence.
Qed.

End PlanExecution.

(** The plan [A (continue_on_error = false, fails); B]: execution stops
    after A, B is never executed, the plan fails. *)
Example abort_on_first_step :
  let out :=
    _execute_remediation_plan restart_fails (init Config.default)
      some_incident
      (plan_of [step_of "restart_pod" false; step_of "check_pod_logs" true])
      0 1000000 tt in
  map RemediationStep.name (executed out.1.1) = ["restart_pod"]
  /\ skipped out.1.1 = [step_of "check_pod_logs" true]
  /\ RemediationPlan.success out.1.2 = false.
Proof. vm_compute. repeat split. Qed.

(** The plan [A (continue_on_error = true, fails); B (succeeds)]: both
    steps are executed, the plan succeeds. *)
Example continue_past_failed_step :
  let out :=
    _execute_remediation_plan restart_fails (init Config.default)
      some_incident
      (plan_of [step_of "restart_pod" true; step_of "check_pod_logs" true])
      0 1000000 tt in
  map RemediationStep.name (executed out.1.1)
  = ["restart_pod"; "check_pod_logs"]
  /\ map RemediationStep.success (executed out.1.1) = [false; true]
  /\ skipped out.1.1 = []
  /\ RemediationPlan.success out.1.2 = true.
Proof. vm_compute. repeat split. Qed.

(** Three steps, the second of which is aborting, on the cluster that
    records its waits: the run fails at the second step, and the handler of
    the third was never awaited. *)
Lemma plan_stops_at_first_aborting_step_witness :
  Config.dry_run (config (init Config.default)) = false
  /\ let out :=
       _execute_remediation_plan restart_fails_recorded
         (init Config.default) some_incident
         (plan_of [step_of "check_cpu_limits" true;
                   step_of "restart_pod" false;
                   step_of "check_pod_logs" true])
         0 1000000 [] in
     run_success out.1.1 = false
     /\ world out.1.1 = ["check_cpu_limits"; "restart_pod"]
     /\ exists before s,
          executed out.1.1 = before ++ [s]
          /\ RemediationStep.aborting s = true
          /\ Forall (fun s => RemediationStep.aborting s = false) before.
Proof.
  split; [reflexivity|]. cbv zeta.
  destruct (proj1 (proj2 (proj2 (proj2 (proj2
    (plan_stops_at_first_aborting_step restart_fails_recorded
       (init Config.default) some_incident
       (plan_of [step_of "check_cpu_limits" true;
                 step_of "restart_pod" false;
                 step_of "check_pod_logs" true])
       0 1000000 [] eq_refl)))))) as [Hfail Hlast].
  { vm_compute. apply Exists_cons_tl, Exists_cons_hd. reflexivity. }
  split; [exact Hfail|]. split; [reflexivity | exact Hlast].
Defined.

End ExecutorFacts.

(** ** The orchestrator *)

Module OrchestratorFacts.

Import Models Orchestrator.

(** *** The remediation policy *)

(** The code's cascade of early returns is the specification's ordered
    list of rules. *)
Lemma should_remediate_refines_spec (self : t) (incident : Incident)
    (analysis : Analysis) :
  _should_remediate self incident analysis
  = should_remediate_spec (Config.dry_run (config self)) (severity incident)
      (default 0%float (confidence analysis))
      (Config.require_approval (config self)).
Proof.
  unfold _should_remediate, should_remediate_spec, first_match.
  destruct (Config.dry_run (config self)); [reflexivity|].
  destruct (severity incident); vm_compute; reflexivity.
Qed.

(** C7.  [_should_remediate] is the first-match evaluation of the rules
    dry-run, severity, confidence, approval, in this order, each answering
    false, with true when none matches; the confidence is 0 when the
    analysis has none.  For a warning of confidence 0.95, with dry-run and
    approval off, the answer is false, whatever the confidence. *)
Theorem should_remediate_first_match (self : t) (incident : Incident)
    (analysis : Analysis) :
  _should_remediate self incident analysis
  = first_match
      [(Config.dry_run (config self), false);
       (bool_decide (severity incident = INFO ∨ severity incident = WARNING),
        false);
       ((default 0 (confidence analysis) <? 0.7)%float, false);
       (Config.require_approval (config self), false)]
      true
  /\ _should_remediate (init Config.default)
       (sample_incident "i1" WARNING ANALYZING) (sample_analysis 0.95 [])
     = false
  /\ (forall confidence,
        should_remediate_spec false WARNING confidence false = false).
Proof.
  split; [apply should_remediate_refines_spec|].
  split; reflexivity.
Qed.

(** The five cases of the orchestrator's test of the policy. *)
Example should_remediate_test_cases :
  should_remediate_spec false INFO 0.9 false = false
  /\ should_remediate_spec false CRITICAL 0.5 false = false
  /\ should_remediate_spec true CRITICAL 0.9 false = false
  /\ should_remediate_spec false CRITICAL 0.9 true = false
  /\ should_remediate_spec false CRITICAL 0.9 false = true.
Proof. repeat split. Qed.

(** The comparison is strict: a confidence of exactly 0.7 passes rule 3. *)
Example confidence_comparison_is_strict :
  should_remediate_spec false CRITICAL 0.7 false = true
  /\ should_remediate_spec false CRITICAL 0.69 false = false.
Proof. repeat split. Qed.

(** The analysis of the fallback path never warrants remediation. *)
Lemma basic_analysis_not_warranted (self : t) (incident about : Incident) :
  _should_remediate self incident (basic_analysis about) = false.
Proof.
  unfold _should_remediate.
  destruct (Config.dry_run (config self)); [reflexivity|].
  destruct (severity incident); vm_compute;
    try reflexivity;
    now destruct (Config.require_approval (config self)).
Qed.

(** *** The periodic cleanup *)

Lemma hour_range (dt : datetime) : 0 <= hour dt < 24.
Proof. unfold hour. apply Z.mod_pos_bound. lia. Qed.

(** [hour - 24] is never an hour of the day: [replace] raises at every
    instant, before the registry is looked at. *)
Lemma cleanup_always_raises (clock : Clock) (self : t) :
  _cleanup_old_incidents clock self = Raise ValueError.
Proof.
  unfold _cleanup_old_incidents, replace_hour.
  pose proof (hour_range (utc_now clock)) as H.
  destruct (Z.leb_spec 0 (hour (utc_now clock) - 24)); [lia|].
  reflexivity.
Qed.

(** So the turn of the loop changes nothing and publishes nothing. *)
Lemma orchestration_loop_idle (clock : Clock) (self : t) :
  _orchestration_loop clock self = (self, []).
Proof. unfold _orchestration_loop. now rewrite cleanup_always_raises. Qed.

(** C6, run: at noon of day two the registry holds an incident resolved at
    the start of day zero, 36 hours before.  The cleanup raises
    [ValueError]; after the turn of the loop the incident is still in the
    registry. *)
Theorem cleanup_removes_nothing :
  let old := sample_incident "i1" CRITICAL RESOLVED in
  let self := sample_orchestrator old in
  terminal (state old) = true
  /\ updated_at old < utc_now noon - 24 * MICROSECONDS_PER_HOUR
  /\ _cleanup_old_incidents noon self = Raise ValueError
  /\ incidents (_orchestration_loop noon self).1 !! "i1" = Some old.
Proof.
  intros old self. split; [reflexivity|]. split; [reflexivity|].
  split; [apply cleanup_always_raises|].
  rewrite orchestration_loop_idle. apply lookup_singleton_eq.
Qed.

(** *** The handlers, one by one *)

(** The incident as [_handle_analysis_completed] first leaves it. *)
Lemma analysis_completed_found (clock : Clock) (self : t)
    (incident_id : string) (analysis : Analysis) (incident : Incident) :
  incidents self !! incident_id = Some incident ->
  let remediating :=
    set_updated_at (utc_now clock)
      (set_state REMEDIATING (set_root_cause analysis incident)) in
  let resolved :=
    set_resolved_at (utc_now clock) (set_state RESOLVED remediating) in
  _handle_analysis_completed clock self incident_id analysis
  = if _should_remediate self remediating analysis
    then (set_incidents (<[incident_id := remediating]> (incidents self))
            self,
          [dashboard_incident_update remediating;
           remediation_request remediating analysis])
    else (set_incidents (<[incident_id := resolved]> (incidents self)) self,
          [dashboard_incident_update remediating;
           dashboard_incident_update resolved]).
Proof.
  intros H. unfold _handle_analysis_completed. now rewrite H.
Qed.

Lemma remediation_completed_found (clock : Clock) (self : t)
    (incident_id : string) (success : bool) (result : RemediationResult)
    (incident : Incident) :
  incidents self !! incident_id = Some incident ->
  let final :=
    set_updated_at (utc_now clock)
      (set_remediation_result result
         (if success
          then set_resolved_at (utc_now clock) (set_state RESOLVED incident)
          else set_state FAILED incident)) in
  _handle_remediation_completed clock self incident_id success result
  = (set_incidents (<[incident_id := final]> (incidents self)) self,
     [dashboard_incident_update final]).
Proof.
  intros H. unfold _handle_remediation_completed. now rewrite H.
Qed.

(** The fallback path: the incident just stored is found again, and the
    fallback analysis does not warrant remediation. *)
Lemma analysis_fallback_resolves (clock : Clock) (self : t)
    (incident : Incident) :
  incidents self !! Models.id incident = Some incident ->
  let remediating :=
    set_updated_at (utc_now clock)
      (set_state REMEDIATING
         (set_root_cause (basic_analysis incident) incident)) in
  let resolved :=
    set_resolved_at (utc_now clock) (set_state RESOLVED remediating) in
  _handle_analysis_fallback clock self incident
  = (set_incidents (<[Models.id incident := resolved]> (incidents self)) self,
     [dashboard_incident_update remediating;
      dashboard_incident_update resolved]).
Proof.
  intros H. unfold _handle_analysis_fallback.
  rewrite (analysis_completed_found _ _ _ _ _ H).
  now rewrite basic_analysis_not_warranted.
Qed.

(** [_handle_incident_detected], by the path taken. *)
Lemma incident_detected_paths (clock : Clock) (self : t)
    (incident : Incident) (request_raises : bool) :
  let analyzing :=
    set_updated_at (utc_now clock) (set_state ANALYZING incident) in
  let stored := <[Models.id incident := analyzing]> (incidents self) in
  let remediating :=
    set_updated_at (utc_now clock)
      (set_state REMEDIATING
         (set_root_cause (basic_analysis analyzing) analyzing)) in
  let resolved :=
    set_resolved_at (utc_now clock) (set_state RESOLVED remediating) in
  let out := _handle_incident_detected clock self incident request_raises in
  if (CircuitBreaker.can_execute (local_now clock) (gemini self)).1
     && negb request_raises
  then incidents out.1 = stored
       /\ out.2 = [dashboard_incident_update analyzing;
                   analysis_request analyzing]
  else incidents out.1 = <[Models.id incident := resolved]> stored
       /\ out.2 = [dashboard_incident_update analyzing;
                   dashboard_incident_update remediating;
                   dashboard_incident_update resolved].
Proof.
  intros analyzing stored remediating resolved out.
  unfold out, _handle_incident_detected. fold analyzing.
  change (Models.id analyzing) with (Models.id incident). fold stored.
  destruct (CircuitBreaker.can_execute (local_now clock)
              (gemini (set_incidents stored self))) as [allowed cb] eqn:Hcan.
  change (gemini (set_incidents stored self)) with (gemini self) in Hcan.
  rewrite Hcan. simpl fst.
  destruct allowed; simpl andb; [destruct request_raises; simpl negb|].
  - rewrite analysis_fallback_resolves; [now split|].
    simpl. apply lookup_insert_eq.
  - now split.
  - rewrite analysis_fallback_resolves; [now split|].
    simpl. apply lookup_insert_eq.
Qed.

(** *** The lifecycle *)

(** C1, as the code has it.  On analysis completion the orchestrator sets
    the state of the incident to remediating and broadcasts it so, whatever
    the state was; when remediation is warranted the incident stays
    remediating and the remediation request is published; when it is not,
    the state is then set to resolved, with [resolved_at], and broadcast
    again.  On remediation completion the state is set to resolved or to
    failed by the success flag, whatever it was: for the entry as the
    analysis completion left it, and for any entry the registry has under
    the id.  For an incident that is
    analyzing, resp. remediating, these are the moves analyzing ->
    remediating (-> resolved) and remediating -> resolved or failed. *)
Theorem analysis_completion_sets_remediating_first (clock : Clock) (self : t)
    (incident_id : string) (analysis : Analysis) (incident : Incident) :
  incidents self !! incident_id = Some incident ->
  let out := _handle_analysis_completed clock self incident_id analysis in
  let remediating :=
    set_updated_at (utc_now clock)
      (set_state REMEDIATING (set_root_cause analysis incident)) in
  let resolved :=
    set_resolved_at (utc_now clock) (set_state RESOLVED remediating) in
  state remediating = REMEDIATING
  /\ state resolved = RESOLVED
  /\ head out.2 = Some (dashboard_incident_update remediating)
  /\ (if _should_remediate self remediating analysis
      then incidents out.1 !! incident_id = Some remediating
           /\ out.2 = [dashboard_incident_update remediating;
                       remediation_request remediating analysis]
      else incidents out.1 !! incident_id = Some resolved
           /\ out.2 = [dashboard_incident_update remediating;
                       dashboard_incident_update resolved])
  /\ (forall success result,
        state_of
          (_handle_remediation_completed clock out.1 incident_id success
             result).1 incident_id
        = Some (if success then RESOLVED else FAILED))
  /\ (forall (later : t) (found : Incident) success result,
        incidents later !! incident_id = Some found ->
        state_of
          (_handle_remediation_completed clock later incident_id success
             result).1 incident_id
        = Some (if success then RESOLVED else FAILED))
  /\ (state incident = ANALYZING ->
      forward (state incident) (state remediating)
      /\ forward (state remediating) (state resolved)
      /\ forward (state remediating) FAILED).
Proof.
  intros H out remediating resolved.
  assert (exists i, incidents out.1 !! incident_id = Some i) as [i Hi].
  { unfold out. rewrite (analysis_completed_found _ _ _ _ _ H).
    destruct (_should_remediate _ _ _); simpl;
      rewrite lookup_insert_eq; eauto. }
  split; [reflexivity|]. split; [reflexivity|].
  split; [|split; [|split; [|split]]].
  - unfold out. rewrite (analysis_completed_found _ _ _ _ _ H).
    now destruct (_should_remediate _ _ _).
  - unfold out. rewrite (analysis_completed_found _ _ _ _ _ H).
    fold remediating. fold resolved.
    destruct (_should_remediate self remediating analysis); simpl;
      now rewrite lookup_insert_eq.
  - intros success result.
    rewrite (remediation_completed_found _ _ _ _ _ _ Hi).
    unfold state_of. simpl. rewrite lookup_insert_eq. simpl.
    now destruct success.
  - intros later found success result Hfound.
    rewrite (remediation_completed_found _ _ _ _ _ _ Hfound).
    unfold state_of. simpl. rewrite lookup_insert_eq. simpl.
    now destruct success.
  - intros Ha. simpl. rewrite Ha. repeat split; constructor.
Qed.

Lemma analysis_completion_sets_remediating_first_witness :
  let self := sample_orchestrator (sample_incident "i1" CRITICAL ANALYZING) in
  let analysis := sample_analysis 0.9 [] in
  let out := _handle_analysis_completed noon self "i1" analysis in
  incidents self !! "i1" = Some (sample_incident "i1" CRITICAL ANALYZING)
  /\ _should_remediate self
       (set_updated_at (utc_now noon)
          (set_state REMEDIATING
             (set_root_cause analysis
                (sample_incident "i1" CRITICAL ANALYZING))))
       analysis = true
  /\ state_of out.1 "i1" = Some REMEDIATING
  /\ state_of
       (_handle_remediation_completed noon out.1 "i1" false
          (sample_result "failed")).1 "i1" = Some FAILED.
Proof.
  intros self analysis out.
  assert (incidents self !! "i1"
          = Some (sample_incident "i1" CRITICAL ANALYZING)) as H
    by apply lookup_singleton_eq.
  pose proof (analysis_completion_sets_remediating_first noon self "i1"
                analysis _ H) as (_ & _ & _ & Hw & Hr & _).
  split; [exact H|]. split; [reflexivity|].
  split; [|exact (Hr false (sample_result "failed"))].
  change (_should_remediate self _ analysis) with true in Hw.
  destruct Hw as [Hw _]. unfold state_of. fold out in Hw. now rewrite Hw.
Defined.

(** C1 fails as stated, twice.  A warning with a confident analysis is not
    remediated and ends resolved, yet the handler first makes it
    remediating and broadcasts it in that state.  And the handler does not
    look at the state it overwrites: a repeated [analysis.completed] moves
    a resolved incident back to remediating, which is no forward move. *)
Lemma analysis_completion_enters_remediating :
  (let self := sample_orchestrator (sample_incident "i1" WARNING ANALYZING) in
   let analysis := sample_analysis 0.95 [] in
   let out := _handle_analysis_completed noon self "i1" analysis in
   state_of self "i1" = Some ANALYZING
   /\ state_of out.1 "i1" = Some RESOLVED
   /\ ~ (forall i, dashboard_incident_update i ∈ out.2 ->
                   state i <> REMEDIATING))
  /\ (let self :=
        sample_orchestrator (sample_incident "i2" CRITICAL RESOLVED) in
      let out :=
        _handle_analysis_completed noon self "i2" (sample_analysis 0.9 []) in
      state_of self "i2" = Some RESOLVED
      /\ state_of out.1 "i2" = Some REMEDIATING
      /\ ~ forward RESOLVED REMEDIATING).
Proof.
  split.
  - intros self analysis out.
    split; [reflexivity|]. split; [reflexivity|].
    intros Hall.
    apply (Hall (set_updated_at (utc_now noon)
                   (set_state REMEDIATING
                      (set_root_cause analysis
                         (sample_incident "i1" WARNING ANALYZING))))).
    + apply elem_of_cons. now left.
    + reflexivity.
  - intros self out.
    split; [reflexivity|]. split; [reflexivity|].
    intros Hf. inversion Hf.
Qed.

(** *** The fallback path *)

(** C9.  When the breaker of the reasoning service refuses the call, or
    publishing the analysis request raises, [_handle_incident_detected]
    leaves the incident resolved, with the fallback analysis (confidence
    0.6) as its root cause, and publishes no remediation request: whatever
    the severity and the configuration. *)
Theorem fallback_never_remediates (clock : Clock) (self : t)
    (incident : Incident) (request_raises : bool) :
  (CircuitBreaker.can_execute (local_now clock) (gemini self)).1 = false
  \/ request_raises = true ->
  let out := _handle_incident_detected clock self incident request_raises in
  state_of out.1 (Models.id incident) = Some RESOLVED
  /\ (exists i,
        incidents out.1 !! Models.id incident = Some i
        /\ (confidence <$> root_cause i) = Some (Some 0.6%float)
        /\ is_Some (resolved_at i))
  /\ (forall i a, remediation_request i a ∉ out.2)
  /\ (forall i, analysis_request i ∉ out.2).
Proof.
  intros Hpath out.
  pose proof (incident_detected_paths clock self incident request_raises)
    as Hp. cbv zeta in Hp. fold out in Hp.
  assert ((CircuitBreaker.can_execute (local_now clock) (gemini self)).1
          && negb request_raises = false) as Hb.
  { destruct Hpath as [-> | ->]; [reflexivity | apply andb_false_r]. }
  rewrite Hb in Hp. destruct Hp as [Hreg Hev].
  split; [|split; [|split]].
  - unfold state_of. rewrite Hreg, lookup_insert_eq. reflexivity.
  - eexists. rewrite Hreg, lookup_insert_eq.
    split; [reflexivity|]. split; [reflexivity | eexists; reflexivity].
  - intros i a Hin. rewrite Hev in Hin.
    repeat (apply elem_of_cons in Hin as [Hin|Hin]; [discriminate|]).
    now apply elem_of_nil in Hin.
  - intros i Hin. rewrite Hev in Hin.
    repeat (apply elem_of_cons in Hin as [Hin|Hin]; [discriminate|]).
    now apply elem_of_nil in Hin.
Qed.

(** An emergency detected while the breaker is open (three failures, the
    last one second before). *)
Lemma fallback_never_remediates_witness :
  let opened :=
    CircuitBreaker.record_failures
      [129597000000; 129598000000; 129599000000]
      (gemini (init Config.default)) in
  let self := set_gemini opened (init Config.default) in
  let out :=
    _handle_incident_detected noon self (sample_incident "i1" EMERGENCY NEW)
      false in
  (CircuitBreaker.can_execute (local_now noon) (gemini self)).1 = false
  /\ state_of out.1 "i1" = Some RESOLVED
  /\ (forall i a, remediation_request i a ∉ out.2).
Proof.
  intros opened self out.
  assert ((CircuitBreaker.can_execute (local_now noon) (gemini self)).1
          = false) as H by reflexivity.
  pose proof (fallback_never_remediates noon self
                (sample_incident "i1" EMERGENCY NEW) false (or_introl H))
    as (Hs & _ & Hr & _).
  split; [exact H|]. split; [exact Hs | exact Hr].
Defined.

(** *** [resolved_at] *)

Lemma stamped_insert (self : t) (incident_id : string) (i : Incident) :
  resolved_is_stamped self ->
  (state i = RESOLVED -> is_Some (resolved_at i)) ->
  resolved_is_stamped
    (set_incidents (<[incident_id := i]> (incidents self)) self).
Proof.
  intros Hall Hi k j. simpl. rewrite lookup_insert.
  destruct (decide (incident_id = k)) as [->|Hne].
  - intros [= <-]. exact Hi.
  - apply Hall.
Qed.

Lemma stamped_set_gemini (cb : CircuitBreaker.t) (self : t) :
  resolved_is_stamped self -> resolved_is_stamped (set_gemini cb self).
Proof. intros H. exact H. Qed.

Lemma analysis_completed_stamped (clock : Clock) (self : t)
    (incident_id : string) (analysis : Analysis) :
  resolved_is_stamped self ->
  resolved_is_stamped
    (_handle_analysis_completed clock self incident_id analysis).1.
Proof.
  intros Hall. unfold _handle_analysis_completed.
  destruct (incidents self !! incident_id) as [incident|]; [|exact Hall].
  destruct (_should_remediate _ _ _); simpl; apply stamped_insert;
    try exact Hall; simpl; [discriminate | eauto].
Qed.

Lemma remediation_completed_stamped (clock : Clock) (self : t)
    (incident_id : string) (success : bool) (result : RemediationResult) :
  resolved_is_stamped self ->
  resolved_is_stamped
    (_handle_remediation_completed clock self incident_id success result).1.
Proof.
  intros Hall. unfold _handle_remediation_completed.
  destruct (incidents self !! incident_id) as [incident|]; [|exact Hall].
  simpl. apply stamped_insert; [exact Hall|].
  destruct success; simpl; [eauto | discriminate].
Qed.

Lemma incident_detected_stamped (clock : Clock) (self : t)
    (incident : Incident) (request_raises : bool) :
  resolved_is_stamped self ->
  resolved_is_stamped
    (_handle_incident_detected clock self incident request_raises).1.
Proof.
  intros Hall.
  pose proof (incident_detected_paths clock self incident request_raises)
    as Hp. cbv zeta in Hp.
  intros k j Hk.
  destruct (_ && _); destruct Hp as [Hreg _]; rewrite Hreg in Hk; revert Hk.
  - rewrite lookup_insert. destruct (decide _) as [Heq|Hne].
    + intros [= <-]. discriminate.
    + apply Hall.
  - rewrite !lookup_insert. destruct (decide _) as [Heq|Hne].
    + intros [= <-] _. simpl. eauto.
    + apply Hall.
Qed.

(** Every activity keeps the resolved incidents stamped. *)
Lemma react_stamped (clock : Clock) (a : Activity) (self : t) :
  resolved_is_stamped self -> resolved_is_stamped (react clock a self).1.
Proof.
  intros Hall. destruct a as [e request_raises|]; simpl.
  - destruct e; simpl; try exact Hall.
    + now apply incident_detected_stamped.
    + now apply analysis_completed_stamped.
    + now apply remediation_completed_stamped.
  - now rewrite orchestration_loop_idle.
Qed.

(** C5, as the code has it.  After every activity of the orchestrator,
    every incident of the registry whose state is resolved has its
    [resolved_at] set, provided this held before; this is so after any
    sequence of activities from the empty registry.  Remediation completion
    with the success flag off sets the state to failed and leaves
    [resolved_at] as it was. *)
Theorem resolved_incidents_are_stamped (clock : Clock) (a : Activity)
    (self : t) :
  resolved_is_stamped self ->
  resolved_is_stamped (react clock a self).1
  /\ (forall trace config,
        resolved_is_stamped (run trace (init config)))
  /\ (forall incident_id incident result,
        incidents self !! incident_id = Some incident ->
        exists final,
          incidents
            (_handle_remediation_completed clock self incident_id false
               result).1 !! incident_id = Some final
          /\ state final = FAILED
          /\ resolved_at final = resolved_at incident).
Proof.
  intros Hall. split; [now apply react_stamped|]. split.
  - intros trace config. unfold run.
    assert (resolved_is_stamped (init config)) as H0.
    { intros k j Hk. simpl in Hk. now rewrite lookup_empty in Hk. }
    revert H0. generalize (init config).
    induction trace as [|[c b] trace IH]; intros s Hs; simpl; [exact Hs|].
    apply IH. now apply react_stamped.
  - intros incident_id incident result Hi.
    rewrite (remediation_completed_found _ _ _ _ _ _ Hi). simpl.
    rewrite lookup_insert_eq. eexists. split; [reflexivity|]. now split.
Qed.

Lemma resolved_incidents_are_stamped_witness :
  let self := sample_orchestrator (sample_incident "i1" CRITICAL REMEDIATING) in
  let a :=
    Delivered
      (remediation_completed "i1" "p1" true None (sample_result "completed"))
      false in
  resolved_is_stamped self /\ resolved_is_stamped (react noon a self).1.
Proof.
  intros self a.
  assert (resolved_is_stamped self) as H.
  { intros k j Hk. unfold self, sample_orchestrator in Hk. simpl in Hk.
    apply lookup_singleton_Some in Hk as [_ <-]. discriminate. }
  split; [exact H|].
  exact (proj1 (resolved_incidents_are_stamped noon a self H)).
Defined.

(** C5 fails as stated, in both directions.  A remediating incident whose
    remediation fails ends in the terminal state failed with no
    [resolved_at].  And a resolved incident that a repeated
    [analysis.completed] makes remediating again keeps its
    [resolved_at]. *)
Lemma failed_incident_has_no_resolved_at :
  (let self :=
     sample_orchestrator (sample_incident "i1" CRITICAL REMEDIATING) in
   let out :=
     _handle_remediation_completed noon self "i1" false
       (sample_result "failed") in
   exists i,
     incidents out.1 !! "i1" = Some i
     /\ state i = FAILED
     /\ resolved_at i = None
     /\ ~ resolved_at_iff_terminal i)
  /\ (let self :=
        sample_orchestrator
          (set_resolved_at 0 (sample_incident "i2" CRITICAL RESOLVED)) in
      let out :=
        _handle_analysis_completed noon self "i2" (sample_analysis 0.9 []) in
      exists i,
        incidents out.1 !! "i2" = Some i
        /\ state i = REMEDIATING
        /\ resolved_at i = Some 0
        /\ ~ resolved_at_iff_terminal i).
Proof.
  split.
  - intros self out. eexists. split; [reflexivity|].
    split; [reflexivity|]. split; [reflexivity|].
    intros [_ H]. destruct (H eq_refl) as [x Hx]. discriminate.
  - intros self out. eexists. split; [reflexivity|].
    split; [reflexivity|]. split; [reflexivity|].
    intros [H _]. assert (is_Some (Some 0)) as Hs by eauto.
    specialize (H Hs). discriminate.
Qed.

End OrchestratorFacts.

(** ** The orchestrator and the executor together *)

Module SystemFacts.

Import Models.

(** A request whose analysis recommends nothing is answered by two
    warnings; the executor is as before. *)
Lemma no_actions_returns (executor : Executor.t) (incident : Incident)
    (analysis : Analysis) (plan_id : string) :
  default [] (recommended_actions analysis) = [] ->
  Executor._handle_remediation_request executor incident analysis plan_id
  = Executor.Returned executor
      [(LOG_INFO,
        "Creating remediation plan for incident " +:+ Models.id incident);
       (LOG_WARNING,
        "No recommended actions in analysis for " +:+ Models.id incident);
       (LOG_WARNING,
        "No remediation steps created for incident " +:+ Models.id incident)].
Proof.
  intros H.
  unfold Executor._handle_remediation_request,
    Executor._create_remediation_plan.
  now rewrite H.
Qed.

(** An activity that does not concern an incident leaves its entry of the
    registry as it is. *)
Lemma react_frame (clock : Clock) (a : Orchestrator.Activity)
    (self : Orchestrator.t) (incident_id : string) :
  Orchestrator.concerns incident_id a = false ->
  Orchestrator.incidents (Orchestrator.react clock a self).1 !! incident_id
  = Orchestrator.incidents self !! incident_id.
Proof.
  intros Hc. destruct a as [e request_raises|]; simpl.
  - destruct e; simpl in *; try reflexivity.
    + apply bool_decide_eq_false in Hc.
      pose proof (OrchestratorFacts.incident_detected_paths clock self
                    incident request_raises) as Hp.
      cbv zeta in Hp.
      destruct (_ && _); destruct Hp as [-> _];
        now rewrite ?lookup_insert_ne.
    + apply bool_decide_eq_false in Hc.
      unfold Orchestrator._handle_analysis_completed.
      destruct (Orchestrator.incidents self !! incident_id0); [|reflexivity].
      destruct (Orchestrator._should_remediate _ _ _); simpl;
        now rewrite lookup_insert_ne.
    + apply bool_decide_eq_false in Hc.
      unfold Orchestrator._handle_remediation_completed.
      destruct (Orchestrator.incidents self !! incident_id0); [|reflexivity].
      simpl. now rewrite lookup_insert_ne.
  - now rewrite OrchestratorFacts.orchestration_loop_idle.
Qed.

Lemma run_frame (trace : list (Clock * Orchestrator.Activity))
    (self : Orchestrator.t) (incident_id : string) :
  Forall (fun ca => Orchestrator.concerns incident_id ca.2 = false) trace ->
  Orchestrator.incidents (Orchestrator.run trace self) !! incident_id
  = Orchestrator.incidents self !! incident_id.
Proof.
  unfold Orchestrator.run. revert self.
  induction trace as [|[c a] trace IH]; intros self Hall; simpl;
    [reflexivity|].
  inversion Hall as [|? ? Ha Hrest]; subst.
  rewrite IH by assumption. now apply react_frame.
Qed.

Section Workers.

Context {World : Type}.
Variable await_handler :
  Executor.Handler -> Incident -> RemediationStep.t -> World ->
  Executor.HandlerOutcome * World.

(** While no request arrives, what the workers publish are the completion
    events of the pairs that are in the queue. *)
Lemma drain_publishes_queued (turns : list (datetime * datetime))
    (executor : Executor.t) (w : World) (e : Event) :
  e ∈ Executor.drain await_handler turns executor w ->
  exists incident plan success error result,
    (incident, plan) ∈ Queue.items (Executor.execution_queue executor)
    /\ e = remediation_completed (Models.id incident)
             (RemediationPlan.id plan) success error result.
Proof.
  revert executor w.
  induction turns as [|[started_at completed_at] turns IH];
    intros executor w; simpl.
  - intros H. now apply elem_of_nil in H.
  - unfold Executor._execution_worker, Queue.get.
    destruct (Queue.items (Executor.execution_queue executor))
      as [|[incident plan] rest] eqn:Hq; simpl.
    + intros H. destruct (IH _ _ H) as (i & p & s & er & r & Hin & He).
      rewrite Hq in Hin. now apply elem_of_nil in Hin.
    + intros H. apply elem_of_cons in H as [H|H].
      * exists incident, plan. do 3 eexists.
        split; [apply elem_of_cons; now left | exact H].
      * destruct (IH _ _ H) as (i & p & s & er & r & Hin & He).
        simpl in Hin. exists i, p, s, er, r.
        split; [apply elem_of_cons; now right | exact He].
Qed.

(** C10.  A remediation request for a remediating incident, with an
    analysis that recommends no action, while no pair for the incident is
    in the queue: the executor returns as it was, with nothing queued;
    its workers never publish a [remediation.completed] for the incident;
    and the incident stays remediating through every sequence of
    activities of the orchestrator in which no event for this incident is
    delivered, the turns of the maintenance loop included. *)
Theorem no_actions_leaves_incident_remediating (executor : Executor.t)
    (self : Orchestrator.t) (incident : Incident) (analysis : Analysis)
    (plan_id : string) :
  default [] (recommended_actions analysis) = [] ->
  Orchestrator.state_of self (Models.id incident) = Some REMEDIATING ->
  (forall item,
      item ∈ Queue.items (Executor.execution_queue executor) ->
      Models.id item.1 <> Models.id incident) ->
  (exists log,
      Executor._handle_remediation_request executor incident analysis plan_id
      = Executor.Returned executor log)
  /\ (forall turns w plan_id' success error result,
        remediation_completed (Models.id incident) plan_id' success error
          result
        ∉ Executor.drain await_handler turns executor w)
  /\ (forall trace,
        Forall (fun ca => Orchestrator.concerns (Models.id incident) ca.2
                          = false) trace ->
        Orchestrator.state_of (Orchestrator.run trace self)
          (Models.id incident) = Some REMEDIATING).
Proof.
  intros Hnone Hstate Hqueue. split; [|split].
  - eexists. now apply no_actions_returns.
  - intros turns w plan_id' success error result Hin.
    apply drain_publishes_queued in Hin
      as (i & p & s & er & r & Hq & [= Hid _ _ _ _]).
    now apply (Hqueue _ Hq).
  - intros trace Hall. unfold Orchestrator.state_of in *.
    now rewrite run_frame.
Qed.

End Workers.

(** A critical incident with a confident analysis that recommends nothing:
    the orchestrator requests remediation, the executor returns without
    queueing, and after a turn of the maintenance loop and a health check
    the incident is still remediating. *)
Lemma no_actions_leaves_incident_remediating_witness :
  let incident := Orchestrator.sample_incident "i1" CRITICAL ANALYZING in
  let analysis := Orchestrator.sample_analysis 0.9 [] in
  let out :=
    Orchestrator._handle_analysis_completed Orchestrator.noon
      (Orchestrator.sample_orchestrator incident) "i1" analysis in
  let executor := Executor.init Config.default in
  (exists requested,
      out.2 = [dashboard_incident_update requested;
               remediation_request requested analysis])
  /\ (exists log,
        Executor._handle_remediation_request executor incident analysis "p1"
        = Executor.Returned executor log)
  /\ Orchestrator.state_of
       (Orchestrator.run
          [(Orchestrator.noon, Orchestrator.Periodic);
           (Orchestrator.noon, Orchestrator.Delivered health_check false)]
          out.1)
       "i1" = Some REMEDIATING.
Proof.
  intros incident analysis out executor.
  destruct (no_actions_leaves_incident_remediating
              Executor.restart_fails executor out.1 incident analysis "p1")
    as (Hret & _ & Hstay).
  - reflexivity.
  - reflexivity.
  - intros item Hin. now apply elem_of_nil in Hin.
  - split; [eexists; reflexivity|]. split; [exact Hret|].
    apply Hstay. repeat constructor.
Defined.

End SystemFacts.

(** ** More on the circuit breaker *)

Module CircuitBreakerMore.

Import CircuitBreaker.

Lemma call_settings (c : Call) (cb : t) : same_settings (call c cb) cb.
Proof.
  unfold same_settings. destruct c as [now| |now]; simpl.
  - unfold can_execute. destruct (state cb); simpl; auto.
    destruct (last_failure_time cb); simpl; auto.
    destruct (_ <=? _); simpl; auto.
  - unfold record_success. destruct (state cb); simpl; auto.
    destruct (_ <=? _); simpl; auto.
  - apply CircuitBreakerFacts.record_failure_settings.
Qed.

Lemma call_consistent (c : Call) (cb : t) :
  1 <= failure_threshold cb -> 1 <= success_threshold cb ->
  consistent cb -> consistent (call c cb).
Proof.
  intros Hft Hst (Hf & Hs & Hc & Hh & Hz & Hl).
  unfold consistent.
  destruct (state cb) eqn:E.
  - (* closed *)
    specialize (Hc eq_refl).
    assert (success_count cb = 0) as Hz0 by (apply Hz; discriminate).
    destruct c as [now| |now]; simpl.
    + unfold can_execute; rewrite E; simpl; rewrite E.
      repeat split; intros; try lia; try congruence.
    + unfold record_success; rewrite E; simpl; rewrite E.
      repeat split; intros; try lia; try congruence.
    + unfold record_failure; simpl; rewrite E.
      destruct (Z.leb_spec (failure_threshold cb) (failure_count cb + 1));
        simpl; rewrite ?E;
        repeat split; intros; try lia; try congruence; eauto.
  - (* open *)
    assert (success_count cb = 0) as Hz0 by (apply Hz; discriminate).
    destruct Hl as [last L]; [discriminate|].
    destruct c as [now| |now]; simpl.
    + unfold can_execute; rewrite E, L.
      destruct (_ <=? _); simpl; rewrite ?E, ?L;
        repeat split; intros; try lia; try congruence; eauto.
    + unfold record_success; rewrite E; simpl; rewrite E, L.
      repeat split; intros; try lia; try congruence; eauto.
    + unfold record_failure; simpl; rewrite E; simpl; rewrite E.
      repeat split; intros; try lia; try congruence; eauto.
  - (* half-open *)
    specialize (Hh eq_refl).
    destruct Hl as [last L]; [discriminate|].
    destruct c as [now| |now]; simpl.
    + unfold can_execute; rewrite E; simpl; rewrite E, L.
      repeat split; intros; try lia; try congruence; eauto.
    + unfold record_success; rewrite E; simpl.
      destruct (Z.leb_spec (success_threshold cb) (success_count cb + 1));
        simpl; rewrite ?E, ?L;
        repeat split; intros; try lia; try congruence; eauto.
    + unfold record_failure; simpl; rewrite E; simpl.
      repeat split; intros; try lia; try congruence; eauto.
Qed.

(** X1.  Whatever a caller does with a breaker built with thresholds of at
    least one and a [reset_timeout] that a [timedelta] can hold, between
    calls: the counters are not negative; a closed
    breaker has counted fewer failures than its threshold; a half-open one
    fewer successes than its threshold; the success count is zero outside
    half-open; and a breaker that is not closed has the time of its last
    failure, so that an open breaker always becomes half-open once
    [reset_timeout] has passed. *)
Theorem breaker_stays_consistent (ft rt st : Z) (name : string)
    (cs : list Call) :
  1 <= ft -> 1 <= st -> timedelta_representable rt = true ->
  consistent (calls cs (init ft rt st name))
  /\ (state (calls cs (init ft rt st name)) = OPEN ->
      exists last,
        last_failure_time (calls cs (init ft rt st name)) = Some last
        /\ forall now,
             timedelta_seconds rt <= now - last ->
             (can_execute now (calls cs (init ft rt st name))).1 = true).
Proof.
  intros Hft Hst Hrt.
  assert (consistent (calls cs (init ft rt st name))
          /\ same_settings (calls cs (init ft rt st name)) (init ft rt st name))
    as [Hc Hs].
  { unfold calls. induction cs as [|c cs IH] using rev_ind.
    - split; [|repeat split]. unfold consistent; simpl.
      repeat split; intros; try lia; congruence.
    - rewrite fold_left_app. simpl. destruct IH as [IH (S1 & S2 & S3)].
      destruct (call_settings c (fold_left (fun cb c => call c cb) cs
                                   (init ft rt st name))) as (T1 & T2 & T3).
      split.
      + apply call_consistent; [rewrite S1 | rewrite S3 | exact IH];
          simpl; assumption.
      + repeat split; congruence. }
  split; [exact Hc|]. intros Ho.
  destruct Hc as (_ & _ & _ & _ & _ & Hl).
  destruct Hl as [last Hlast]; [congruence|].
  exists last. split; [exact Hlast|]. intros now Hnow.
  destruct Hs as (_ & S2 & _). simpl in S2.
  unfold can_execute. rewrite Ho, Hlast, S2.
  destruct (Z.leb_spec (timedelta_seconds rt) (now - last));
    [reflexivity | lia].
Qed.

Lemma breaker_stays_consistent_witness :
  1 <= 3 /\ 1 <= 2 /\ timedelta_representable 30 = true
  /\ consistent
       (calls [RecordFailure 1000000; RecordSuccess; RecordFailure 2000000;
               RecordFailure 3000000; RecordFailure 4000000;
               CanExecute 40000000; RecordSuccess]
          (init 3 30 2 "gemini")).
Proof.
  split; [lia|]. split; [lia|]. split; [reflexivity|].
  apply (breaker_stays_consistent 3 30 2 "gemini"); [lia | lia|].
  reflexivity.
Defined.

(** Failures of a closed breaker that stay under the threshold leave it
    closed. *)
Lemma record_failures_under_threshold (ts : list datetime) (cb : t) :
  state cb = CLOSED ->
  failure_count cb + Z.of_nat (length ts) < failure_threshold cb ->
  state (record_failures ts cb) = CLOSED
  /\ failure_count (record_failures ts cb)
     = failure_count cb + Z.of_nat (length ts).
Proof.
  intros Hc. induction ts as [|now ts IH] using rev_ind; simpl; intros Hlt.
  - split; [exact Hc | lia].
  - rewrite length_app, Nat2Z.inj_add in Hlt. simpl in Hlt.
    destruct IH as [Hs Hn]; [lia|].
    rewrite CircuitBreakerFacts.record_failures_snoc.
    destruct (CircuitBreakerFacts.record_failures_settings ts cb)
      as (S1 & _ & _).
    destruct (CircuitBreakerFacts.record_failure_closed now _ Hs)
      as (K1 & _ & K3).
    rewrite length_app, Nat2Z.inj_add. simpl.
    split; [apply K3; lia | lia].
Qed.

(** X2.  The failures counted are consecutive ones: a success of a closed
    breaker sets the count back to zero, so that fewer than
    [failure_threshold] failures after it leave the breaker closed,
    however many failures came before the success. *)
Theorem success_forgets_failures (cb : t) (ts : list datetime) :
  state cb = CLOSED ->
  Z.of_nat (length ts) < failure_threshold cb ->
  failure_count (record_success cb) = 0
  /\ state (record_failures ts (record_success cb)) = CLOSED
  /\ failure_count (record_failures ts (record_success cb))
     = Z.of_nat (length ts)
  /\ (can_execute 0 (record_failures ts (record_success cb))).1 = true.
Proof.
  intros Hc Hlt.
  assert (state (record_success cb) = CLOSED
          /\ failure_count (record_success cb) = 0
          /\ failure_threshold (record_success cb) = failure_threshold cb)
    as (Hs & Hz & Ht).
  { unfold record_success. rewrite Hc. simpl. now rewrite Hc. }
  destruct (record_failures_under_threshold ts (record_success cb) Hs)
    as [Hs' Hn]; [rewrite Hz, Ht; lia|].
  split; [exact Hz|]. split; [exact Hs'|]. split; [rewrite Hn, Hz; lia|].
  unfold can_execute. now rewrite Hs'.
Qed.

(** Two failures, a success, two failures: the breaker of the reasoning
    service (threshold 3) is still closed. *)
Lemma success_forgets_failures_witness :
  let cb := record_failures [1000000; 2000000] (init 3 30 2 "gemini") in
  state cb = CLOSED
  /\ failure_count cb = 2
  /\ state (record_failures [3000000; 4000000] (record_success cb)) = CLOSED
  /\ failure_count (record_failures [3000000; 4000000] (record_success cb))
     = 2.
Proof.
  intros cb.
  destruct (success_forgets_failures cb [3000000; 4000000])
    as (_ & H1 & H2 & _); [reflexivity | reflexivity |].
  split; [reflexivity|]. split; [reflexivity|]. split; assumption.
Defined.

(** [execute] on a closed breaker runs [func] and records its outcome. *)
Lemma execute_closed {R E W : Type} (now now' : datetime) (cb : t)
    (func : W -> (R + E) * W) (w : W) :
  state cb = CLOSED ->
  execute now now' cb func w
  = match func w with
    | (inl result, w') => (ExecReturned result, record_success cb, w')
    | (inr e, w') => (ExecRaised e, record_failure now' cb, w')
    end.
Proof. intros H. unfold execute, can_execute. now rewrite H. Qed.

(** Raising calls through a closed breaker, under the threshold: every
    call runs [func], and the breaker is the one the failures leave. *)
Lemma execute_each_under_threshold {R E W : Type}
    (times : list (datetime * datetime)) (cb : t)
    (func : W -> (R + E) * W) (w : W) :
  (forall w, exists e w', func w = (inr e, w')) ->
  state cb = CLOSED ->
  failure_count cb + Z.of_nat (length times) < failure_threshold cb ->
  let out := execute_each times cb func w in
  Forall (fun o => exists e, o = ExecRaised e) out.1.1
  /\ length out.1.1 = length times
  /\ out.1.2 = record_failures times.*2 cb.
Proof.
  intros Hraise. revert cb w.
  induction times as [|[now now'] times IH]; intros cb w Hc Hlt; simpl.
  - repeat split. constructor.
  - rewrite (execute_closed _ _ _ _ _ Hc).
    destruct (Hraise w) as (e & w' & ->).
    simpl in Hlt.
    destruct (CircuitBreakerFacts.record_failure_closed now' cb Hc)
      as (K1 & _ & K3).
    destruct (CircuitBreakerFacts.record_failure_settings now' cb)
      as (S1 & _ & _).
    specialize (IH (record_failure now' cb) w').
    destruct (execute_each times (record_failure now' cb) func w')
      as [[outs cb''] w''] eqn:Heach.
    simpl in IH |- *.
    destruct IH as (I1 & I2 & I3); [apply K3; lia | rewrite K1, S1; lia|].
    split; [constructor; eauto|]. split; [now rewrite I2 | exact I3].
Qed.

(** X3.  Through [execute]: on a closed breaker with no failure counted,
    [failure_threshold] calls of a function that raises are all run and
    their exceptions raised again; they leave the breaker open; and for as
    long as less than [reset_timeout] has passed since the last of them,
    [execute] raises [CircuitBreakerOpenError] without running the function
    it is given, and leaves breaker and world as they are.  The
    [reset_timeout] is one that a [timedelta] can hold. *)
Theorem execute_trips_breaker {R E W : Type}
    (times : list (datetime * datetime)) (last : datetime * datetime)
    (cb : t) (func : W -> (R + E) * W) (w : W) :
  (forall w, exists e w', func w = (inr e, w')) ->
  state cb = CLOSED ->
  failure_count cb = 0 ->
  timedelta_representable (reset_timeout cb) = true ->
  Z.of_nat (length (times ++ [last])) = failure_threshold cb ->
  let out := execute_each (times ++ [last]) cb func w in
  Forall (fun o => exists e, o = ExecRaised e) out.1.1
  /\ length out.1.1 = length (times ++ [last])
  /\ state out.1.2 = OPEN
  /\ (forall now now' (other : W -> (R + E) * W),
        now - last.2 < timedelta_seconds (reset_timeout cb) ->
        execute now now' out.1.2 other out.2
        = (CircuitBreakerOpenError, out.1.2, out.2)).
Proof.
  intros Hraise Hc Hz _ Hn out.
  assert (out.1.2 = record_failures (times ++ [last]).*2 cb
          /\ Forall (fun o => exists e, o = ExecRaised e) out.1.1
          /\ length out.1.1 = length (times ++ [last])) as (Hcb & Hall & Hlen).
  { unfold out. clear out.
    rewrite length_app in Hn. simpl in Hn.
    assert (failure_count cb + Z.of_nat (length times) < failure_threshold cb)
      as Hlt by lia.
    clear Hn. revert cb w Hc Hz Hlt.
    induction times as [|[now now'] times IH]; intros cb w Hc Hz Hlt; simpl.
    - destruct last as [now now']. rewrite (execute_closed _ _ _ _ _ Hc).
      destruct (Hraise w) as (e & w' & ->). simpl.
      repeat split. repeat constructor. eauto.
    - rewrite (execute_closed _ _ _ _ _ Hc).
      destruct (Hraise w) as (e & w' & ->).
      simpl in Hlt.
      destruct (CircuitBreakerFacts.record_failure_closed now' cb Hc)
        as (K1 & _ & K3).
      destruct (CircuitBreakerFacts.record_failure_settings now' cb)
        as (S1 & _ & _).
      pose proof (execute_each_under_threshold times
                    (record_failure now' cb) func w' Hraise) as Hu.
      assert (state (record_failure now' cb) = CLOSED) as Hc'
        by (apply K3; lia).
      assert (failure_count (record_failure now' cb)
              + Z.of_nat (length times)
              < failure_threshold (record_failure now' cb)) as Hlt'
        by (rewrite K1, S1; lia).
      destruct (Hu Hc' Hlt') as (U1 & U2 & U3).
      (* the calls before the last one, then the last one *)
      clear IH.
      assert (forall (ts : list (datetime * datetime)) c v,
                 execute_each (ts ++ [last]) c func v
                 = let o := execute_each ts c func v in
                   let o' := execute last.1 last.2 o.1.2 func o.2 in
                   (o.1.1 ++ [o'.1.1], o'.1.2, o'.2)) as Hsnoc.
      { induction ts as [|[a b] ts IHts]; intros c v; simpl.
        - destruct last as [a b]. simpl.
          now destruct (execute a b c func v) as [[? ?] ?].
        - destruct (execute a b c func v) as [[o1 c1] v1].
          rewrite IHts.
          destruct (execute_each ts c1 func v1) as [[os c2] v2]. simpl.
          now destruct (execute last.1 last.2 c2 func v2) as [[? ?] ?]. }
      rewrite Hsnoc.
      destruct (execute_each times (record_failure now' cb) func w')
        as [[outs cb2] w2] eqn:Heach.
      simpl in U1, U2, U3 |- *.
      assert (state cb2 = CLOSED) as Hc2.
      { rewrite U3.
        now apply (record_failures_under_threshold times.*2
                     (record_failure now' cb) Hc');
          rewrite length_fmap. }
      rewrite (execute_closed _ _ _ _ _ Hc2).
      destruct (Hraise w2) as (e2 & w3 & ->). simpl.
      split; [|split].
      + rewrite fmap_app. simpl.
        unfold record_failures at 1. rewrite fold_left_app. simpl.
        now rewrite U3.
      + constructor; [eauto|]. apply Forall_app. split; [exact U1|].
        repeat constructor. eauto.
      + rewrite !length_app. simpl. now rewrite U2. }
  assert ((times ++ [last]).*2 = times.*2 ++ [last.2]) as Hsnd
    by now rewrite fmap_app.
  rewrite Hsnd in Hcb.
  assert (state out.1.2 = OPEN) as Ho.
  { rewrite Hcb. apply CircuitBreakerFacts.record_failures_opens;
      [exact Hc | lia |].
    rewrite <- Hn. now rewrite !length_app, length_fmap. }
  split; [exact Hall|]. split; [exact Hlen|]. split; [exact Ho|].
  intros now now' other Hnow.
  assert (last_failure_time out.1.2 = Some last.2) as Hl.
  { rewrite Hcb, CircuitBreakerFacts.record_failures_snoc.
    apply CircuitBreakerFacts.record_failure_last. }
  destruct (CircuitBreakerFacts.record_failures_settings
              (times.*2 ++ [last.2]) cb) as (_ & S2 & _).
  rewrite <- Hcb in S2.
  unfold execute, can_execute. rewrite Ho, Hl, S2.
  destruct (Z.leb_spec (timedelta_seconds (reset_timeout cb))
              (now - last.2)); [lia | reflexivity].
Qed.

(** Three calls that raise through the breaker of the reasoning service;
    the world counts the runs of the function.  The fourth call, ten
    seconds later, is refused and the count stays at three. *)
Lemma execute_trips_breaker_witness :
  let func (w : nat) : (unit + string) * nat := (inr "unavailable", S w) in
  let out :=
    execute_each ([(1000000, 1000001); (2000000, 2000001)]
                  ++ [(3000000, 3000001)])
      (init 3 30 2 "gemini") func 0%nat in
  out.2 = 3%nat
  /\ state out.1.2 = OPEN
  /\ execute 13000000 13000001 out.1.2 func out.2
     = (CircuitBreakerOpenError, out.1.2, 3%nat).
Proof.
  intros func out.
  destruct (execute_trips_breaker
              [(1000000, 1000001); (2000000, 2000001)] (3000000, 3000001)
              (init 3 30 2 "gemini") func 0%nat)
    as (_ & _ & Ho & Hrefused).
  - intros w. eexists _, _. reflexivity.
  - reflexivity.
  - reflexivity.
  - reflexivity.
  - reflexivity.
  - split; [reflexivity|]. split; [exact Ho|].
    apply (Hrefused 13000000 13000001 func). reflexivity.
Defined.

End CircuitBreakerMore.

(** ** More on the orchestrator *)

Module OrchestratorMore.

Import Models Orchestrator.

(** *** The registry *)

Lemma react_keeps_keyed (clock : Clock) (a : Activity) (self : t) :
  (forall k i, incidents self !! k = Some i ->
               Models.id i = k /\ state i <> NEW) ->
  forall k i, incidents (react clock a self).1 !! k = Some i ->
              Models.id i = k /\ state i <> NEW.
Proof.
  intros Hall. destruct a as [e request_raises|]; simpl.
  - destruct e; simpl; try exact Hall.
    + pose proof (OrchestratorFacts.incident_detected_paths clock self
                    incident request_raises) as Hp.
      cbv zeta in Hp. intros k i.
      destruct (_ && _); destruct Hp as [-> _]; rewrite ?lookup_insert.
      * destruct (decide _) as [Heq|Hne]; [|apply Hall].
        intros [= <-]. now split.
      * destruct (decide _) as [Heq|Hne]; [|apply Hall].
        intros [= <-]. now split.
    + unfold _handle_analysis_completed.
      destruct (incidents self !! incident_id) as [incident|] eqn:Hi;
        [|exact Hall].
      destruct (Hall _ _ Hi) as [Hid _]. intros k i.
      destruct (_should_remediate _ _ _); simpl; rewrite lookup_insert;
        (destruct (decide _) as [Heq|Hne]; [|apply Hall]);
        intros [= <-]; simpl; split; congruence.
    + unfold _handle_remediation_completed.
      destruct (incidents self !! incident_id) as [incident|] eqn:Hi;
        [|exact Hall].
      destruct (Hall _ _ Hi) as [Hid _]. intros k i. simpl.
      rewrite lookup_insert.
      destruct (decide _) as [Heq|Hne]; [|apply Hall].
      intros [= <-]. destruct success; simpl; split; congruence.
  - now rewrite OrchestratorFacts.orchestration_loop_idle.
Qed.

(** X4.  Through every sequence of activities from a new orchestrator, an
    incident of the registry is stored under its own id, and is never in
    the state new. *)
Theorem registry_keyed_by_id (trace : list (Clock * Activity))
    (config : Config.RemediationConfig) (k : string) (i : Incident) :
  incidents (run trace (init config)) !! k = Some i ->
  Models.id i = k /\ state i <> NEW.
Proof.
  revert k i. unfold run.
  assert (forall k i, incidents (init config) !! k = Some i ->
                      Models.id i = k /\ state i <> NEW) as H0.
  { intros k i Hk. simpl in Hk. now rewrite lookup_empty in Hk. }
  revert H0. generalize (init config).
  induction trace as [|[c a] trace IH]; intros s Hs; simpl; [exact Hs|].
  apply IH. now apply react_keeps_keyed.
Qed.

Lemma registry_keyed_by_id_witness :
  let trace :=
    [(noon, Delivered (incident_detected (sample_incident "i1" CRITICAL NEW))
              false);
     (noon, Delivered (analysis_completed "i1" (sample_analysis 0.9 []))
              false)] in
  exists i,
    incidents (run trace (init Config.default)) !! "i1" = Some i
    /\ Models.id i = "i1" /\ state i <> NEW.
Proof.
  intros trace. eexists. split; [reflexivity|].
  apply (registry_keyed_by_id trace Config.default "i1"). reflexivity.
Defined.

(** X5.  No activity takes an incident out of the registry: not the
    handlers, and not the turn of the maintenance loop either. *)
Theorem registry_never_shrinks (trace : list (Clock * Activity)) (self : t)
    (k : string) :
  is_Some (incidents self !! k) ->
  is_Some (incidents (run trace self) !! k).
Proof.
  unfold run. revert self.
  induction trace as [|[c a] trace IH]; intros self Hk; simpl; [exact Hk|].
  apply IH. clear IH.
  destruct a as [e request_raises|]; simpl.
  - destruct e; simpl; try exact Hk.
    + pose proof (OrchestratorFacts.incident_detected_paths c self
                    incident request_raises) as Hp.
      cbv zeta in Hp.
      destruct (_ && _); destruct Hp as [-> _]; rewrite ?lookup_insert;
        repeat (destruct (decide _); [eauto|]); exact Hk.
    + unfold _handle_analysis_completed.
      destruct (incidents self !! incident_id); [|exact Hk].
      destruct (_should_remediate _ _ _); simpl; rewrite lookup_insert;
        (destruct (decide _); [eauto | exact Hk]).
    + unfold _handle_remediation_completed.
      destruct (incidents self !! incident_id); [|exact Hk].
      simpl. rewrite lookup_insert. destruct (decide _); [eauto | exact Hk].
  - now rewrite OrchestratorFacts.orchestration_loop_idle.
Qed.

(** An incident resolved on day zero is still in the registry after its
    resolution is reported again and the loop has taken a turn on day
    two. *)
Lemma registry_never_shrinks_witness :
  let self := sample_orchestrator (sample_incident "i1" CRITICAL RESOLVED) in
  is_Some (incidents self !! "i1")
  /\ is_Some
       (incidents
          (run [(noon, Delivered
                         (remediation_completed "i1" "p1" true None
                            (sample_result "completed")) false);
                (noon, Periodic)] self) !! "i1").
Proof.
  intros self.
  assert (is_Some (incidents self !! "i1")) as H
    by (eexists; apply lookup_singleton_eq).
  split; [exact H|]. now apply registry_never_shrinks.
Defined.

(** *** The handlers at the edges *)

(** X6.  [remediation.completed] is idempotent: handled a second time at
    the same clock reading it leaves the orchestrator as the first time
    left it and publishes the same update; at a later reading, the state
    of every incident is as the first time left it. *)
Theorem remediation_completed_idempotent (clock clock' : Clock) (self : t)
    (incident_id : string) (success : bool) (result : RemediationResult) :
  let once :=
    _handle_remediation_completed clock self incident_id success result in
  _handle_remediation_completed clock once.1 incident_id success result
  = once
  /\ (forall k,
        state_of
          (_handle_remediation_completed clock' once.1 incident_id success
             result).1 k
        = state_of once.1 k).
Proof.
  intros once. unfold once, _handle_remediation_completed.
  destruct (incidents self !! incident_id) as [incident|] eqn:Hi; simpl.
  - rewrite !lookup_insert_eq. split.
    + f_equal.
      * unfold set_incidents. simpl. rewrite insert_insert_eq.
        now destruct success.
      * now destruct success.
    + intros k. unfold state_of. simpl. rewrite insert_insert_eq.
      rewrite !lookup_insert. destruct (decide _); [|reflexivity].
      now destruct success.
  - rewrite Hi. split; [reflexivity|]. intros k. reflexivity.
Qed.

(** X7.  Only [incident.detected] adds to the registry: every other
    activity leaves the set of ids as it is.  In particular an
    [analysis.completed] or a [remediation.completed] for an id the
    registry does not have changes nothing and publishes nothing. *)
Theorem only_detection_adds_incidents (clock : Clock) (a : Activity)
    (self : t) :
  (forall incident r, a <> Delivered (incident_detected incident) r) ->
  dom (incidents (react clock a self).1) = dom (incidents self)
  /\ (forall incident_id analysis,
        incidents self !! incident_id = None ->
        _handle_analysis_completed clock self incident_id analysis
        = (self, []))
  /\ (forall incident_id success result,
        incidents self !! incident_id = None ->
        _handle_remediation_completed clock self incident_id success result
        = (self, [])).
Proof.
  intros Hnot. split; [|split].
  - destruct a as [e request_raises|]; simpl.
    + destruct e; simpl; try reflexivity.
      * now destruct (Hnot incident request_raises).
      * unfold _handle_analysis_completed.
        destruct (incidents self !! incident_id) as [incident|] eqn:Hi;
          [|reflexivity].
        destruct (_should_remediate _ _ _); simpl;
          rewrite dom_insert_L; apply elem_of_dom_2 in Hi;
          now apply subseteq_union_1_L, singleton_subseteq_l.
      * unfold _handle_remediation_completed.
        destruct (incidents self !! incident_id) as [incident|] eqn:Hi;
          [|reflexivity].
        simpl. rewrite dom_insert_L. apply elem_of_dom_2 in Hi.
        now apply subseteq_union_1_L, singleton_subseteq_l.
    + now rewrite OrchestratorFacts.orchestration_loop_idle.
  - intros incident_id analysis Hnone.
    unfold _handle_analysis_completed. now rewrite Hnone.
  - intros incident_id success result Hnone.
    unfold _handle_remediation_completed. now rewrite Hnone.
Qed.

Lemma only_detection_adds_incidents_witness :
  let self := sample_orchestrator (sample_incident "i1" CRITICAL ANALYZING) in
  let a := Delivered (analysis_completed "i2" (sample_analysis 0.9 [])) false in
  dom (incidents (react noon a self).1) = dom (incidents self)
  /\ _handle_analysis_completed noon self "i2" (sample_analysis 0.9 [])
     = (self, []).
Proof.
  intros self a.
  destruct (only_detection_adds_incidents noon a self) as (Hd & Ha & _).
  - intros incident r. discriminate.
  - split; [exact Hd|]. now apply Ha.
Defined.

(** *** What is published *)

(** X8.  A remediation request is published only by the handling of an
    [analysis.completed] (never on the fallback path of a detection, never
    by a completion or the loop), only with dry-run and approval off, and
    only for an incident of severity error, critical or emergency whose
    analysis has a confidence that is not below 0.7; the incident of the
    request is the registry's, in state remediating. *)
Theorem remediation_requested_only_when_warranted (clock : Clock)
    (a : Activity) (self : t) (incident : Incident) (analysis : Analysis) :
  remediation_request incident analysis ∈ (react clock a self).2 ->
  (exists k r,
      a = Delivered (analysis_completed k analysis) r
      /\ incidents (react clock a self).1 !! k = Some incident)
  /\ Config.dry_run (config self) = false
  /\ Config.require_approval (config self) = false
  /\ severity incident ∈ [ERROR; CRITICAL; EMERGENCY]
  /\ (default 0 (confidence analysis) <? 0.7)%float = false
  /\ state incident = REMEDIATING.
Proof.
  destruct a as [e request_raises|]; simpl.
  - destruct e; simpl; try (intros H; now apply elem_of_nil in H).
    + (* detection: no request on either path *)
      pose proof (OrchestratorFacts.incident_detected_paths clock self
                    incident0 request_raises) as Hp.
      cbv zeta in Hp.
      destruct (_ && _); destruct Hp as [_ ->]; intros H;
        repeat (apply elem_of_cons in H as [H|H]; [discriminate|]);
        now apply elem_of_nil in H.
    + unfold _handle_analysis_completed.
      destruct (incidents self !! incident_id) as [found|] eqn:Hi;
        [|intros H; now apply elem_of_nil in H].
      destruct (_should_remediate _ _ _) eqn:Hw; simpl; intros H;
        repeat (apply elem_of_cons in H as [H|H]; try discriminate);
        try (now apply elem_of_nil in H).
      injection H as -> ->.
      unfold _should_remediate in Hw. simpl in Hw.
      destruct (Config.dry_run (config self)); [discriminate|].
      destruct (bool_decide _) eqn:Hsev; [discriminate|].
      destruct (_ <? _)%float eqn:Hconf; [discriminate|].
      destruct (Config.require_approval (config self)); [discriminate|].
      split; [|repeat split].
      * exists incident_id, request_raises.
        split; [reflexivity | apply lookup_insert_eq].
      * apply bool_decide_eq_false in Hsev. simpl.
        destruct (severity found); set_solver.
    + unfold _handle_remediation_completed.
      destruct (incidents self !! incident_id) as [found|];
        simpl; intros H;
        repeat (apply elem_of_cons in H as [H|H]; [discriminate|]);
        now apply elem_of_nil in H.
  - rewrite OrchestratorFacts.orchestration_loop_idle. simpl.
    intros H. now apply elem_of_nil in H.
Qed.

Lemma remediation_requested_only_when_warranted_witness :
  let self := sample_orchestrator (sample_incident "i1" CRITICAL ANALYZING) in
  let analysis := sample_analysis 0.9 [] in
  let a := Delivered (analysis_completed "i1" analysis) false in
  exists incident,
    remediation_request incident analysis ∈ (react noon a self).2
    /\ severity incident ∈ [ERROR; CRITICAL; EMERGENCY]
    /\ state incident = REMEDIATING.
Proof.
  intros self analysis a. eexists.
  assert (remediation_request
            (set_updated_at (utc_now noon)
               (set_state REMEDIATING
                  (set_root_cause analysis
                     (sample_incident "i1" CRITICAL ANALYZING))))
            analysis ∈ (react noon a self).2) as H.
  { apply elem_of_cons. right. apply elem_of_cons. now left. }
  split; [exact H|].
  destruct (remediation_requested_only_when_warranted noon a self _ _ H)
    as (_ & _ & _ & Hs & _ & Hst).
  split; assumption.
Defined.

(** *** [updated_at] *)

(** X9.  Every entry of the registry that an activity writes carries the
    clock reading of the activity as its [updated_at]; every other entry
    is as it was.  So [updated_at] never goes back while the clock does
    not. *)
Theorem written_entries_carry_the_time (clock : Clock) (a : Activity)
    (self : t) (k : string) (after : Incident) :
  incidents (react clock a self).1 !! k = Some after ->
  (incidents self !! k = Some after \/ updated_at after = utc_now clock)
  /\ (forall before,
        incidents self !! k = Some before ->
        updated_at before <= utc_now clock ->
        updated_at before <= updated_at after).
Proof.
  intros Hafter.
  assert (incidents self !! k = Some after
          \/ updated_at after = utc_now clock) as H.
  { revert Hafter. destruct a as [e request_raises|]; simpl.
    - destruct e; simpl; auto.
      + pose proof (OrchestratorFacts.incident_detected_paths clock self
                      incident request_raises) as Hp.
        cbv zeta in Hp.
        destruct (_ && _); destruct Hp as [-> _]; rewrite ?lookup_insert;
          (destruct (decide _); [intros [= <-]; now right | auto]).
      + unfold _handle_analysis_completed.
        destruct (incidents self !! incident_id); auto.
        destruct (_should_remediate _ _ _); simpl; rewrite lookup_insert;
          (destruct (decide _); [intros [= <-]; now right | auto]).
      + unfold _handle_remediation_completed.
        destruct (incidents self !! incident_id); auto.
        simpl. rewrite lookup_insert.
        destruct (decide _); [intros [= <-]; now right | auto].
    - rewrite OrchestratorFacts.orchestration_loop_idle. auto. }
  split; [exact H|]. intros before Hb Hle.
  destruct H as [H| ->]; [|exact Hle].
  rewrite Hb in H. injection H as ->. lia.
Qed.

Lemma written_entries_carry_the_time_witness :
  let self := sample_orchestrator (sample_incident "i1" CRITICAL ANALYZING) in
  let a := Delivered (analysis_completed "i1" (sample_analysis 0.9 [])) false in
  exists after,
    incidents (react noon a self).1 !! "i1" = Some after
    /\ updated_at after = utc_now noon
    /\ updated_at (sample_incident "i1" CRITICAL ANALYZING)
       <= updated_at after.
Proof.
  intros self a. eexists. split; [reflexivity|].
  split; [reflexivity|].
  refine (proj2 (written_entries_carry_the_time noon a self "i1" _ _)
            (sample_incident "i1" CRITICAL ANALYZING) _ _);
    [reflexivity | reflexivity | simpl; lia].
Defined.

(** *** The breaker of the reasoning service at work *)

(** The breaker after a detection. *)
Lemma incident_detected_gemini (clock : Clock) (self : t)
    (incident : Incident) (request_raises : bool) :
  gemini (_handle_incident_detected clock self incident request_raises).1
  = let checked :=
      CircuitBreaker.can_execute (local_now clock) (gemini self) in
    if checked.1 then
      if request_raises
      then CircuitBreaker.record_failure (local_now clock) checked.2
      else CircuitBreaker.record_success checked.2
    else checked.2.
Proof.
  unfold _handle_incident_detected. simpl.
  destruct (CircuitBreaker.can_execute (local_now clock) (gemini self))
    as [allowed cb] eqn:Hcan. simpl.
  destruct allowed; [destruct request_raises|]; simpl; try reflexivity.
  - unfold _handle_analysis_fallback, _handle_analysis_completed. simpl.
    rewrite lookup_insert_eq.
    now destruct (_should_remediate _ _ _).
  - unfold _handle_analysis_fallback, _handle_analysis_completed. simpl.
    rewrite lookup_insert_eq.
    now destruct (_should_remediate _ _ _).
Qed.

(** A detection whose request can be published, on an orchestrator whose
    breaker of the reasoning service is open. *)
Lemma detection_on_open_breaker (clock : Clock) (self : t)
    (incident : Incident) (last : datetime) :
  CircuitBreaker.state (gemini self) = CircuitBreaker.OPEN ->
  CircuitBreaker.last_failure_time (gemini self) = Some last ->
  CircuitBreaker.success_threshold (gemini self) = 2 ->
  let out := _handle_incident_detected clock self incident false in
  (local_now clock - last
   < timedelta_seconds (CircuitBreaker.reset_timeout (gemini self)) ->
   state_of out.1 (Models.id incident) = Some RESOLVED
   /\ (forall i, analysis_request i ∉ out.2)
   /\ CircuitBreaker.state (gemini out.1) = CircuitBreaker.OPEN)
  /\ (timedelta_seconds (CircuitBreaker.reset_timeout (gemini self))
      <= local_now clock - last ->
      state_of out.1 (Models.id incident) = Some ANALYZING
      /\ (exists i, analysis_request i ∈ out.2)
      /\ CircuitBreaker.state (gemini out.1) = CircuitBreaker.HALF_OPEN).
Proof.
  intros Ho Hl Hs out.
  pose proof (OrchestratorFacts.incident_detected_paths clock self incident
                false) as Hp.
  cbv zeta in Hp. fold out in Hp.
  pose proof (incident_detected_gemini clock self incident false) as Hg.
  fold out in Hg. cbv zeta in Hg.
  unfold CircuitBreaker.can_execute in Hp, Hg. rewrite Ho, Hl in Hp, Hg.
  clearbody out.
  destruct (Z.leb_spec
              (timedelta_seconds (CircuitBreaker.reset_timeout (gemini self)))
              (local_now clock - last)) as [Hge|Hlt];
    (split; [intros Hlt'|intros Hge']; try lia);
    cbn [fst snd andb negb] in Hp, Hg; destruct Hp as [Hreg Hev];
    (split; [|split]).
  - unfold state_of. now rewrite Hreg, lookup_insert_eq.
  - eexists. rewrite Hev. apply elem_of_cons. right.
    apply elem_of_cons. now left.
  - rewrite Hg. unfold CircuitBreaker.record_success. cbn.
    rewrite Hs. reflexivity.
  - unfold state_of. now rewrite Hreg, lookup_insert_eq.
  - intros i Hin. rewrite Hev in Hin.
    repeat (apply elem_of_cons in Hin as [Hin|Hin]; [discriminate|]).
    now apply elem_of_nil in Hin.
  - now rewrite Hg.
Qed.

(** X10.  On a new orchestrator, three detections in a row whose analysis
    request cannot be published open the breaker of the reasoning service
    (threshold 3); a detection within the next 30 seconds publishes no
    analysis request, although publishing would now succeed, and its
    incident is resolved on the fallback path; the first detection after
    the 30 seconds publishes the request again. *)
Theorem three_failed_requests_open_the_breaker
    (config : Config.RemediationConfig) (c1 c2 c3 c4 : Clock)
    (i1 i2 i3 i4 : Incident) :
  let s3 :=
    run [(c1, Delivered (incident_detected i1) true);
         (c2, Delivered (incident_detected i2) true);
         (c3, Delivered (incident_detected i3) true)] (init config) in
  let out := _handle_incident_detected c4 s3 i4 false in
  CircuitBreaker.state (gemini s3) = CircuitBreaker.OPEN
  /\ (local_now c4 - local_now c3 < timedelta_seconds 30 ->
      state_of out.1 (Models.id i4) = Some RESOLVED
      /\ (forall i, analysis_request i ∉ out.2)
      /\ CircuitBreaker.state (gemini out.1) = CircuitBreaker.OPEN)
  /\ (timedelta_seconds 30 <= local_now c4 - local_now c3 ->
      state_of out.1 (Models.id i4) = Some ANALYZING
      /\ (exists i, analysis_request i ∈ out.2)
      /\ CircuitBreaker.state (gemini out.1) = CircuitBreaker.HALF_OPEN).
Proof.
  intros s3 out.
  assert (gemini s3
          = CircuitBreaker.record_failures
              [local_now c1; local_now c2; local_now c3]
              (CircuitBreaker.init 3 30 2 "gemini")) as Hg.
  { unfold s3, run. simpl. rewrite !incident_detected_gemini.
    reflexivity. }
  assert (CircuitBreaker.state (gemini s3) = CircuitBreaker.OPEN
          /\ CircuitBreaker.last_failure_time (gemini s3)
             = Some (local_now c3)
          /\ CircuitBreaker.success_threshold (gemini s3) = 2
          /\ CircuitBreaker.reset_timeout (gemini s3) = 30)
    as (Ho & Hl & Hs & Hr).
  { rewrite Hg. repeat split. }
  split; [exact Ho|].
  rewrite <- Hr.
  exact (detection_on_open_breaker c4 s3 i4 (local_now c3) Ho Hl Hs).
Qed.

(** Failures at seconds 1, 2 and 3 of day two; a detection at second 10
    takes the fallback path. *)
Lemma three_failed_requests_open_the_breaker_witness :
  let at_second (n : Z) :=
    {| utc_now := 86400000000 + n * 1000000;
       local_now := 86400000000 + n * 1000000 |} in
  let s3 :=
    run [(at_second 1,
          Delivered (incident_detected (sample_incident "i1" CRITICAL NEW))
            true);
         (at_second 2,
          Delivered (incident_detected (sample_incident "i2" CRITICAL NEW))
            true);
         (at_second 3,
          Delivered (incident_detected (sample_incident "i3" CRITICAL NEW))
            true)] (init Config.default) in
  let out :=
    _handle_incident_detected (at_second 10) s3
      (sample_incident "i4" CRITICAL NEW) false in
  CircuitBreaker.state (gemini s3) = CircuitBreaker.OPEN
  /\ state_of out.1 "i4" = Some RESOLVED
  /\ (forall i, analysis_request i ∉ out.2).
Proof.
  intros at_second s3 out.
  destruct (three_failed_requests_open_the_breaker Config.default
              (at_second 1) (at_second 2) (at_second 3) (at_second 10)
              (sample_incident "i1" CRITICAL NEW)
              (sample_incident "i2" CRITICAL NEW)
              (sample_incident "i3" CRITICAL NEW)
              (sample_incident "i4" CRITICAL NEW))
    as (Ho & Hin & _).
  destruct Hin as (Hs & Hn & _); [reflexivity|].
  split; [exact Ho|]. split; [exact Hs | exact Hn].
Defined.

End OrchestratorMore.

(** ** More on the executor *)

Module ExecutorMore.

Import Models Executor.

(** *** Building a plan *)

Lemma make_steps_shape (actions : list Action) (i : nat)
    (steps : list RemediationStep.t) :
  make_steps i actions = Ok steps ->
  Forall2
    (fun a s =>
       RemediationStep.action_type s = default "unknown" (action a)
       /\ RemediationStep.continue_on_error s
          = negb (bool_decide (priority a = Some "high"))
       /\ _parse_time_estimate (default "5m" (estimated_time a))
          = Ok (RemediationStep.timeout_seconds s)
       /\ RemediationStep.success s = false)
    actions steps.
Proof.
  revert i steps. induction actions as [|a rest IH]; intros i steps; simpl.
  - intros [= <-]. constructor.
  - unfold make_step.
    destruct (_parse_time_estimate (default "5m" (estimated_time a)))
      as [timeout|e] eqn:Ht; simpl; [|discriminate].
    destruct (make_steps (S i) rest) as [steps'|e] eqn:Hr; simpl;
      [|discriminate].
    intros [= <-]. constructor; [now repeat split | eauto].
Qed.

Lemma make_steps_raises (actions : list Action) (i : nat) (e : PyError) :
  make_steps i actions = Raise e ->
  e = ValueError
  /\ Exists
       (fun a =>
          _parse_time_estimate (default "5m" (estimated_time a))
          = Raise ValueError)
       actions.
Proof.
  revert i. induction actions as [|a rest IH]; intros i; simpl.
  - discriminate.
  - unfold make_step.
    destruct (_parse_time_estimate (default "5m" (estimated_time a)))
      as [timeout|e'] eqn:Ht; simpl.
    + destruct (make_steps (S i) rest) as [steps'|e'] eqn:Hr; simpl;
        [discriminate|].
      intros [= <-]. destruct (IH _ Hr) as [-> Hex].
      split; [reflexivity | now constructor 2].
    + intros [= <-].
      assert (e' = ValueError) as ->.
      { revert Ht. unfold _parse_time_estimate.
        assert (forall s x, PyStr.int s = Raise x -> x = ValueError) as Hint.
        { intros s x. unfold PyStr.int. cbv zeta.
          destruct (match PyStr.skip_trailing _ _ with
                    | EmptyString => _
                    | String _ _ => _
                    end); [|now intros [= <-]].
          destruct (_ <=? _); [discriminate | now intros [= <-]]. }
        repeat (destruct (PyStr.endswith _ _));
          try (destruct (PyStr.int _) eqn:Hi; simpl; try discriminate;
               intros [= <-]; eauto);
          discriminate. }
      split; [reflexivity | now constructor 1].
Qed.

(** X11.  A plan is built step for step from the recommended actions, in
    their order: the step of an action has the action's name as its type
    ("unknown" without one), the parsed estimate as its timeout (that of
    "5m" without one), continues on error unless the action's priority is
    high, and has not succeeded yet; the plan's estimated duration is the
    sum of the timeouts.  Building the plan raises exactly when the
    estimate of some action cannot be parsed, and then it is a
    [ValueError]. *)
Theorem plan_built_step_for_step (incident : Incident) (analysis : Analysis)
    (plan_id : string) :
  let actions := default [] (recommended_actions analysis) in
  match (_create_remediation_plan incident analysis plan_id).1 with
  | Ok plan =>
      RemediationPlan.id plan = plan_id
      /\ RemediationPlan.incident_id plan = Models.id incident
      /\ RemediationPlan.estimated_duration plan
         = sum_timeouts (RemediationPlan.steps plan)
      /\ Forall2
           (fun a s =>
              RemediationStep.action_type s = default "unknown" (action a)
              /\ RemediationStep.continue_on_error s
                 = negb (bool_decide (priority a = Some "high"))
              /\ _parse_time_estimate (default "5m" (estimated_time a))
                 = Ok (RemediationStep.timeout_seconds s)
              /\ RemediationStep.success s = false)
           actions (RemediationPlan.steps plan)
  | Raise e =>
      e = ValueError
      /\ Exists
           (fun a =>
              _parse_time_estimate (default "5m" (estimated_time a))
              = Raise ValueError)
           actions
  end.
Proof.
  intros actions. unfold _create_remediation_plan. fold actions.
  destruct actions as [|a rest] eqn:Ha; simpl.
  - repeat split. constructor.
  - fold (make_steps 1 rest).
    change (x ← make_step 0 a; y ← make_steps 1 rest; mret (x :: y))
      with (make_steps 0 (a :: rest)).
    destruct (make_steps 0 (a :: rest)) as [steps|e] eqn:Hm; simpl.
    + repeat split. now apply (make_steps_shape _ 0).
    + now apply (make_steps_raises _ 0).
Qed.

(** *** Running a plan *)

Section Running.

Context {World : Type}.
Variable await_handler :
  Handler -> Incident -> RemediationStep.t -> World -> HandlerOutcome * World.

Lemma dry_run_all_succeed (steps : list RemediationStep.t) :
  Forall (fun s => RemediationStep.success s = true
                   /\ exists text,
                        RemediationStep.output s
                        = Some ("DRY RUN: Would execute " +:+ text))
         (_dry_run_execution steps)
  /\ length (_dry_run_execution steps) = length steps
  /\ length (filter (fun s => RemediationStep.success s = true)
               (_dry_run_execution steps)) = length steps.
Proof.
  unfold _dry_run_execution. induction steps as [|s steps IH].
  - repeat split. constructor.
  - destruct IH as (H1 & H2 & H3). cbn [map]. split; [|split].
    + constructor; [|exact H1]. split; [reflexivity|]. eauto.
    + cbn [length]. now rewrite H2.
    + rewrite filter_cons_True by reflexivity. cbn [length]. now rewrite H3.
Qed.

(** X12.  In dry-run mode no handler is run, whatever the plan: the world
    is as it was; every step is marked succeeded with an output that
    starts "DRY RUN: Would execute"; the plan succeeds, and the event
    published reports every step completed. *)
Theorem dry_run_runs_nothing (self : t) (incident : Incident)
    (plan : RemediationPlan.t) (started_at completed_at : datetime)
    (w : World) :
  Config.dry_run (config self) = true ->
  let out :=
    _execute_remediation_plan await_handler self incident plan
      started_at completed_at w in
  world out.1.1 = w
  /\ executed out.1.1 = []
  /\ RemediationPlan.success out.1.2 = true
  /\ RemediationPlan.execution_state out.1.2 = "completed"
  /\ Forall (fun s => RemediationStep.success s = true
                      /\ exists text,
                           RemediationStep.output s
                           = Some ("DRY RUN: Would execute " +:+ text))
       (RemediationPlan.steps out.1.2)
  /\ out.2
     = remediation_completed (Models.id incident) (RemediationPlan.id plan)
         true None
         {| Models.execution_state := "completed";
            steps_completed := length (RemediationPlan.steps plan);
            total_steps := length (RemediationPlan.steps plan);
            duration := completed_at - started_at |}.
Proof.
  intros Hdry out. unfold out, _execute_remediation_plan. rewrite Hdry.
  simpl.
  destruct (dry_run_all_succeed (RemediationPlan.steps plan))
    as (H1 & H2 & H3).
  repeat split; try exact H1. now rewrite H2, H3.
Qed.

(** X13.  A step whose action type has no handler fails without touching
    the world, with the error "Unknown action type: ..."; when it may not
    be continued past, a plan that starts with it fails at once and runs
    no handler at all. *)
Theorem unknown_action_type_fails (incident : Incident)
    (step : RemediationStep.t) (rest : list RemediationStep.t) (w : World) :
  _register_action_handlers !! RemediationStep.action_type step = None ->
  let failed :=
    RemediationStep.set_outcome false (RemediationStep.output step)
      (Some ("Unknown action type: " +:+ RemediationStep.action_type step))
      step in
  _execute_step await_handler incident step w = (false, failed, w)
  /\ (RemediationStep.continue_on_error step = false ->
      execute_each_step await_handler incident (step :: rest) w
      = {| executed := [failed]; skipped := rest; run_success := false;
           run_error :=
             Some ("Step '" +:+ RemediationStep.name step
                   +:+ "' failed: Unknown action type: "
                   +:+ RemediationStep.action_type step);
           world := w |}).
Proof.
  intros Hnone failed.
  assert (_execute_step await_handler incident step w = (false, failed, w))
    as Hstep by (unfold _execute_step; now rewrite Hnone).
  split; [exact Hstep|]. intros Hcoe.
  simpl. rewrite Hstep. simpl. rewrite Hcoe. simpl.
  reflexivity.
Qed.

(** The error of a run is there exactly when the run failed. *)
Lemma run_error_iff_failed (incident : Incident)
    (steps : list RemediationStep.t) (w : World) :
  let r := execute_each_step await_handler incident steps w in
  (run_success r = true /\ run_error r = None)
  \/ (run_success r = false /\ is_Some (run_error r)).
Proof.
  revert w. induction steps as [|step rest IH]; intros w; simpl.
  - now left.
  - destruct (_execute_step await_handler incident step w)
      as [[ok step'] w'].
    destruct (negb ok && negb (RemediationStep.continue_on_error step'));
      simpl; [right; eauto | apply IH].
Qed.

(** X14.  Whatever the plan and the mode, the event
    [_execute_remediation_plan] publishes is the [remediation.completed] of
    this incident and this plan; its success flag is the plan's; its
    [total_steps] is the number of steps of the plan, which the run does
    not change, and [steps_completed] is no more; [execution_state] is
    "completed" on success and "failed" otherwise; and it carries an error
    message exactly when the plan failed. *)
Theorem completion_event_summary (self : t) (incident : Incident)
    (plan : RemediationPlan.t) (started_at completed_at : datetime)
    (w : World) :
  let out :=
    _execute_remediation_plan await_handler self incident plan
      started_at completed_at w in
  exists success error result,
    out.2 = remediation_completed (Models.id incident)
              (RemediationPlan.id plan) success error result
    /\ RemediationPlan.success out.1.2 = success
    /\ length (RemediationPlan.steps out.1.2)
       = length (RemediationPlan.steps plan)
    /\ total_steps result = length (RemediationPlan.steps plan)
    /\ (steps_completed result <= total_steps result)%nat
    /\ Models.execution_state result
       = (if success then "completed" else "failed")
    /\ RemediationPlan.execution_state out.1.2
       = Models.execution_state result
    /\ duration result = completed_at - started_at
    /\ (error = None <-> success = true).
Proof.
  intros out. unfold out, _execute_remediation_plan.
  do 3 eexists. split; [reflexivity|]. simpl.
  assert (forall l : list RemediationStep.t,
             (length (filter (fun s => RemediationStep.success s = true) l)
              <= length l)%nat) as Hfilter by (intros l; apply length_filter).
  destruct (Config.dry_run (config self)); simpl.
  - destruct (dry_run_all_succeed (RemediationPlan.steps plan))
      as (_ & H2 & _).
    rewrite H2. repeat split; auto. rewrite <- H2. apply Hfilter.
  - destruct (ExecutorFacts.execute_each_step_run await_handler incident
                (RemediationPlan.steps plan) w)
      as ((first_steps & Heq & Hsame) & _ & _).
    apply Forall2_length in Hsame.
    set (r := execute_each_step await_handler incident
                (RemediationPlan.steps plan) w) in *.
    assert (length (executed r ++ skipped r)
            = length (RemediationPlan.steps plan)) as Hlen.
    { pose proof (f_equal length Heq) as HL. rewrite length_app in HL.
      rewrite length_app. lia. }
    rewrite Hlen.
    destruct (run_error_iff_failed incident (RemediationPlan.steps plan) w)
      as [[Hs He] | [Hs [msg He]]]; fold r in Hs, He; rewrite Hs, He.
    + repeat split; auto. rewrite <- Hlen. apply Hfilter.
    + repeat split; auto; try discriminate. rewrite <- Hlen. apply Hfilter.
Qed.

End Running.

Lemma dry_run_runs_nothing_witness :
  let self :=
    init {| Config.dry_run := true; Config.require_approval := false;
            Config.max_concurrent := 3; Config.timeout_seconds := 300;
            Config.enable_rollback := true;
            Config.max_blast_radius := 0.8%float |} in
  let out :=
    _execute_remediation_plan restart_fails self some_incident
      (plan_of [step_of "restart_pod" false; step_of "no_such_action" false])
      0 1000000 tt in
  Config.dry_run (config self) = true
  /\ RemediationPlan.success out.1.2 = true
  /\ completed_plan_id out.2 = Some "p1".
Proof.
  intros self out.
  destruct (dry_run_runs_nothing restart_fails self some_incident
              (plan_of [step_of "restart_pod" false;
                        step_of "no_such_action" false])
              0 1000000 tt eq_refl) as (_ & _ & Hs & _ & _ & Hev).
  split; [reflexivity|]. split; [exact Hs|].
  fold out in Hev. now rewrite Hev.
Defined.

Lemma unknown_action_type_fails_witness :
  _register_action_handlers !! "rollback_deployment" = None
  /\ _execute_step restart_fails some_incident
       (step_of "rollback_deployment" false) tt
     = (false,
        RemediationStep.set_outcome false None
          (Some "Unknown action type: rollback_deployment")
          (step_of "rollback_deployment" false),
        tt).
Proof.
  assert (_register_action_handlers !! "rollback_deployment" = None) as H
    by reflexivity.
  split; [exact H|].
  exact (proj1 (unknown_action_type_fails restart_fails some_incident
                  (step_of "rollback_deployment" false) [] tt H)).
Defined.

(** *** The fallback actions and the handlers *)

Lemma basic_remediation_cases (incident : Incident) :
  let act (a p : string) :=
    {| action := Some a; priority := Some p; estimated_time := None;
       parameters := None |} in
  Orchestrator._get_basic_remediation incident
  ∈ [[act "scale_replicas" "high"; act "check_cpu_limits" "medium"];
     [act "restart_pod" "high"; act "check_memory_limits" "medium"];
     [act "check_pod_logs" "high"; act "verify_health_checks" "medium"];
     [act "investigate_manually" "medium"]].
Proof.
  intros act. unfold Orchestrator._get_basic_remediation.
  destruct (decide (Models.type incident
                    ∈ ["high_cpu"; "high_memory"; "pod_restart"]))
    as [Hin|Hout].
  - apply elem_of_cons in Hin as [Heq|Hin];
      [rewrite Heq; now apply (list_elem_of_lookup_2 _ 0%nat)|].
    apply elem_of_cons in Hin as [Heq|Hin];
      [rewrite Heq; now apply (list_elem_of_lookup_2 _ 1%nat)|].
    apply elem_of_cons in Hin as [Heq|Hin];
      [rewrite Heq; now apply (list_elem_of_lookup_2 _ 2%nat)|].
    now apply elem_of_nil in Hin.
  - rewrite not_elem_of_list_to_map_1 by exact Hout.
    now apply (list_elem_of_lookup_2 _ 3%nat).
Qed.

Lemma fallback_actions_cases (incident : Incident) :
  let act (a p t params : string) :=
    {| action := Some a; priority := Some p; estimated_time := Some t;
       parameters := Some params |} in
  Analyzer._get_fallback_actions incident
  ∈ [[act "scale_replicas" "high" "2m" "{'replicas': 2}";
      act "check_cpu_limits" "medium" "5m" "{}"];
     [act "restart_pod" "high" "1m" "{}";
      act "check_memory_limits" "medium" "5m" "{}"];
     [act "check_pod_logs" "high" "5m" "{}";
      act "verify_health_checks" "medium" "10m" "{}"];
     [act "investigate_manually" "medium" "15m" "{}"]].
Proof.
  intros act. unfold Analyzer._get_fallback_actions.
  destruct (decide (Models.type incident
                    ∈ ["high_cpu"; "high_memory"; "high_restart_count"]))
    as [Hin|Hout].
  - apply elem_of_cons in Hin as [Heq|Hin];
      [rewrite Heq; now apply (list_elem_of_lookup_2 _ 0%nat)|].
    apply elem_of_cons in Hin as [Heq|Hin];
      [rewrite Heq; now apply (list_elem_of_lookup_2 _ 1%nat)|].
    apply elem_of_cons in Hin as [Heq|Hin];
      [rewrite Heq; now apply (list_elem_of_lookup_2 _ 2%nat)|].
    now apply elem_of_nil in Hin.
  - rewrite not_elem_of_list_to_map_1 by exact Hout.
    now apply (list_elem_of_lookup_2 _ 3%nat).
Qed.

(** X15.  The actions the orchestrator's and the analyzer's fallback
    analyses recommend, for an incident of any type, make a plan the
    executor can run: building it does not raise, it has at least one
    step, every step has a handler in the executor's registry and a
    timeout above zero, and only its first step can abort it. *)
Theorem fallback_plans_have_handlers (incident about : Incident)
    (analysis : Analysis) (plan_id : string) :
  recommended_actions analysis
  = Some (Orchestrator._get_basic_remediation about)
  \/ recommended_actions analysis
     = Some (Analyzer._get_fallback_actions about) ->
  exists plan,
    (_create_remediation_plan incident analysis plan_id).1 = Ok plan
    /\ RemediationPlan.steps plan <> []
    /\ Forall
         (fun s =>
            is_Some (_register_action_handlers
                       !! RemediationStep.action_type s)
            /\ 0 < RemediationStep.timeout_seconds s)
         (RemediationPlan.steps plan)
    /\ Forall (fun s => RemediationStep.continue_on_error s = true)
         (tail (RemediationPlan.steps plan)).
Proof.
  intros [Hrec|Hrec]; unfold _create_remediation_plan; rewrite Hrec;
    [pose proof (basic_remediation_cases about) as Hin
    |pose proof (fallback_actions_cases about) as Hin];
    cbv zeta in Hin;
    repeat (apply elem_of_cons in Hin as [->|Hin];
            [eexists; split; [vm_compute; reflexivity|];
             split; [discriminate|];
             split; repeat constructor; try (eexists; reflexivity)|]);
    now apply elem_of_nil in Hin.
Qed.

Lemma fallback_plans_have_handlers_witness :
  let about := Orchestrator.sample_incident "i1" CRITICAL ANALYZING in
  exists plan,
    (_create_remediation_plan about (Orchestrator.basic_analysis about)
       "p1").1 = Ok plan
    /\ map RemediationStep.action_type (RemediationPlan.steps plan)
       = ["scale_replicas"; "check_cpu_limits"]
    /\ Forall
         (fun s =>
            is_Some (_register_action_handlers
                       !! RemediationStep.action_type s)
            /\ 0 < RemediationStep.timeout_seconds s)
         (RemediationPlan.steps plan).
Proof.
  intros about.
  destruct (fallback_plans_have_handlers about about
              (Orchestrator.basic_analysis about) "p1")
    as (plan & Hplan & _ & Hall & _); [now left|].
  exists plan. split; [exact Hplan|]. split; [|exact Hall].
  revert Hplan. vm_compute. now intros [= <-].
Defined.

(** *** The queue and the workers *)

Section Serving.

Context {World : Type}.
Variable await_handler :
  Handler -> Incident -> RemediationStep.t -> World -> HandlerOutcome * World.

Lemma request_within_capacity (self : t) (incident : Incident)
    (analysis : Analysis) (plan_id : string) (self' : t)
    (log : list LogRecord) :
  _handle_remediation_request self incident analysis plan_id
  = Returned self' log ->
  within_capacity self -> within_capacity self'.
Proof.
  unfold _handle_remediation_request.
  destruct (_create_remediation_plan incident analysis plan_id)
    as [[plan|e] log1]; [|now intros [= <- _]].
  destruct (RemediationPlan.steps plan); [now intros [= <- _]|].
  unfold Queue.put, Queue.full.
  destruct (Z.leb_spec (Queue.maxsize (execution_queue self)) 0) as [Hu|Hb].
  - intros [= <- _] [Hm Hq]. split; [exact Hm|]. simpl. lia.
  - destruct (Z.leb_spec (Queue.maxsize (execution_queue self))
                (Queue.qsize (execution_queue self))); [discriminate|].
    intros [= <- _] [Hm Hq]. split; [exact Hm|]. intros _.
    unfold Queue.qsize in *. simpl. rewrite length_app. simpl. lia.
Qed.

Lemma act_within_capacity (a : Activity) (self : t) (w : World) :
  within_capacity self -> within_capacity (act await_handler a self w).1.1.
Proof.
  intros Hc. destruct a as [incident analysis plan_id|started completed];
    simpl.
  - destruct (_handle_remediation_request self incident analysis plan_id)
      as [self' log|item log] eqn:Hh; simpl; [|exact Hc].
    now apply (request_within_capacity _ _ _ _ _ _ Hh).
  - unfold _execution_worker, Queue.get.
    destruct (Queue.items (execution_queue self)) as [|[i p] rest] eqn:Hq;
      simpl; [exact Hc|].
    destruct Hc as [Hm Hb]. split; [exact Hm|]. intros Hpos.
    specialize (Hb Hpos). unfold Queue.qsize in *. simpl.
    rewrite Hq in Hb. simpl in Hb. lia.
Qed.

(** X16.  However requests and worker turns follow each other on an
    executor built with a capacity above zero, the queue never holds more
    pairs than [max_concurrent]; and an executor built with a capacity of
    zero or less has an unbounded queue: none of its request handlers is
    ever suspended. *)
Theorem queue_stays_within_capacity (config : Config.RemediationConfig)
    (trace : list Activity) (w : World) :
  let self := (serve await_handler trace (init config) w).1.1 in
  (0 < Config.max_concurrent config ->
   Queue.qsize (execution_queue self) <= Config.max_concurrent config)
  /\ (Config.max_concurrent config <= 0 ->
      forall incident analysis plan_id,
        exists self' log,
          _handle_remediation_request self incident analysis plan_id
          = Returned self' log).
Proof.
  intros self.
  assert (within_capacity self /\ Executor.config self = config) as [Hc Hcfg].
  { unfold self. clear self.
    assert (within_capacity (init config)
            /\ Executor.config (init config) = config) as H0.
    { split; [|reflexivity]. split; [reflexivity|].
      intros Hpos. unfold Queue.qsize. simpl in *. lia. }
    revert H0. generalize (init config) as s. revert w.
    induction trace as [|a trace IH]; intros w s [Hs Hcfg]; simpl;
      [now split|].
    pose proof (act_within_capacity a s w Hs) as Ha.
    assert (Executor.config (act await_handler a s w).1.1 = config) as Hcfg'.
    { rewrite <- Hcfg. destruct a as [i an pid|st co]; simpl.
      - unfold _handle_remediation_request.
        destruct (_create_remediation_plan i an pid) as [[plan|e] log1];
          [|reflexivity].
        destruct (RemediationPlan.steps plan); [reflexivity|].
        now destruct (Queue.put _ _) as [[q|[]]|].
      - unfold _execution_worker.
        now destruct (Queue.get _) as [[[i p] q]|]. }
    destruct (act await_handler a s w) as [[s' ev] w'].
    specialize (IH w' s' (conj Ha Hcfg')).
    now destruct (serve await_handler trace s' w') as [[s'' ev'] w'']. }
  destruct Hc as [Hm Hb]. rewrite Hcfg in Hm, Hb. split; [exact Hb|].
  intros Hle incident analysis plan_id.
  unfold _handle_remediation_request.
  destruct (_create_remediation_plan incident analysis plan_id)
    as [[plan|e] log1]; [|eauto].
  destruct (RemediationPlan.steps plan); [eauto|].
  unfold Queue.put, Queue.full. rewrite Hm.
  destruct (Z.leb_spec (Config.max_concurrent config) 0); [eauto | lia].
Qed.



End Serving.


End ExecutorMore.

(** ** More on the time-estimate parser *)

Module ParserMore.

Import Executor.

(** *** Strings without upper-case letters and whitespace *)

Lemma lower_plain (s : string) :
  PyStr.all_chars PyStr.plain s = true -> PyStr.lower s = s.
Proof.
  induction s as [|c r IH]; simpl; [reflexivity|].
  intros H. apply andb_prop in H as [Hc Hr]. rewrite (IH Hr).
  unfold PyStr.lower_char. unfold PyStr.plain in Hc.
  now destruct (PyStr.is_upper c).
Qed.

Lemma lstrip_plain (s : string) :
  PyStr.all_chars PyStr.plain s = true -> PyStr.lstrip s = s.
Proof.
  destruct s as [|c r]; simpl; [reflexivity|].
  intros H. apply andb_prop in H as [Hc _]. unfold PyStr.plain in Hc.
  destruct (PyStr.is_space c); [|reflexivity].
  now rewrite andb_false_r in Hc.
Qed.

Lemma rstrip_plain (s : string) :
  PyStr.all_chars PyStr.plain s = true -> PyStr.rstrip s = s.
Proof.
  induction s as [|c r IH]; simpl; [reflexivity|].
  intros H. apply andb_prop in H as [Hc Hr]. rewrite (IH Hr).
  unfold PyStr.plain in Hc.
  destruct r; [|reflexivity].
  destruct (PyStr.is_space c); [|reflexivity].
  now rewrite andb_false_r in Hc.
Qed.

Lemma strip_plain (s : string) :
  PyStr.all_chars PyStr.plain s = true -> PyStr.strip s = s.
Proof.
  intros H. unfold PyStr.strip. rewrite (lstrip_plain s H).
  now apply rstrip_plain.
Qed.

Lemma all_chars_app (p : ascii -> bool) (s t : string) :
  PyStr.all_chars p (s +:+ t) = PyStr.all_chars p s && PyStr.all_chars p t.
Proof.
  induction s as [|c r IH]; simpl; [reflexivity|].
  now rewrite IH, andb_assoc.
Qed.

Lemma last_char_snoc (s : string) (c : ascii) :
  PyStr.last_char (s +:+ String c EmptyString) = Some c.
Proof.
  induction s as [|d r IH]; simpl; [reflexivity|].
  rewrite IH. now destruct (r +:+ String c EmptyString) eqn:E;
    [destruct r; discriminate|].
Qed.

Lemma drop_last_snoc (s : string) (c : ascii) :
  PyStr.drop_last (s +:+ String c EmptyString) = s.
Proof.
  induction s as [|d r IH]; simpl; [reflexivity|].
  rewrite IH. now destruct (r +:+ String c EmptyString) eqn:E;
    [destruct r; discriminate|].
Qed.

(** *** Decimal numerals *)

Lemma pretty_N_char_digit (d : N) :
  (d < 10)%N ->
  PyStr.is_digit (pretty_N_char d) = true
  /\ PyStr.digit_value (pretty_N_char d) = Z.of_N d
  /\ PyStr.plain (pretty_N_char d) = true.
Proof.
  intros H.
  assert (d = 0 \/ d = 1 \/ d = 2 \/ d = 3 \/ d = 4 \/ d = 5 \/ d = 6
          \/ d = 7 \/ d = 8 \/ d = 9)%N as Hd by lia.
  repeat (destruct Hd as [->|Hd]; [now repeat split|]).
  subst. now repeat split.
Qed.

(** Reading the digits the printer wrote in front of [s]. *)
Lemma parse_pretty_N_go (x : N) :
  (0 < x)%N ->
  forall (s : string) (acc : Z) (b : bool),
  exists k : Z,
    PyStr.parse_digits acc b (pretty_N_go x s)
    = PyStr.parse_digits (acc * 10 ^ k + Z.of_N x) true s
    /\ 0 <= k.
Proof.
  induction (N.lt_wf_0 x) as [x _ IH]. intros Hx s acc b.
  rewrite pretty_N_go_step by exact Hx.
  destruct (pretty_N_char_digit (x `mod` 10)%N) as (Hd & Hv & _);
    [apply N.mod_lt; lia|].
  destruct (decide (x `div` 10 = 0)%N) as [Hz|Hnz].
  - rewrite Hz, pretty_N_go_0. simpl. rewrite Hd, Hv.
    exists 1. split; [|lia]. f_equal.
    pose proof (N.div_mod x 10 ltac:(lia)) as HD. rewrite Hz in HD.
    rewrite Z.pow_1_r. set (m := (x `mod` 10)%N) in *. lia.
  - destruct (IH (x `div` 10)%N) with
      (s := String (pretty_N_char (x `mod` 10)) s) (acc := acc) (b := b)
      as (k & Hk & Hk0); [apply N.div_lt; lia | now apply N.neq_0_lt_0|].
    rewrite Hk. simpl. rewrite Hd, Hv.
    exists (k + 1). split; [|lia]. f_equal.
    rewrite Z.pow_add_r, Z.pow_1_r by lia.
    pose proof (N.div_mod x 10 ltac:(lia)) as HD.
    set (m := (x `mod` 10)%N) in *. set (q := (x `div` 10)%N) in *.
    set (e := 10 ^ k) in *. lia.
Qed.

Lemma plain_pretty_N_go (x : N) (s : string) :
  PyStr.all_chars PyStr.plain s = true ->
  PyStr.all_chars PyStr.plain (pretty_N_go x s) = true.
Proof.
  revert s. induction (N.lt_wf_0 x) as [x _ IH]. intros s Hs.
  destruct (decide (0 < x)%N) as [Hx|Hx].
  - rewrite pretty_N_go_step by exact Hx.
    apply IH; [apply N.div_lt; lia|]. simpl. rewrite Hs.
    destruct (pretty_N_char_digit (x `mod` 10)%N) as (_ & _ & ->);
      [apply N.mod_lt; lia | reflexivity].
  - assert (x = 0%N) as -> by lia. now rewrite pretty_N_go_0.
Qed.

(** A numeral of at most [k] digits in front of [s]. *)
Lemma count_digits_pretty_N_go (x : N) :
  forall (s : string) (k : Z),
    0 <= k -> Z.of_N x < 10 ^ k ->
    PyStr.count_digits (pretty_N_go x s) <= k + PyStr.count_digits s.
Proof.
  induction (N.lt_wf_0 x) as [x _ IH]. intros s k Hk Hx.
  destruct (decide (0 < x)%N) as [Hpos|Hzero].
  - rewrite pretty_N_go_step by exact Hpos.
    assert (1 <= k) as Hk1.
    { destruct (Z.eq_dec k 0) as [->|]; [|lia].
      rewrite Z.pow_0_r in Hx. lia. }
    assert (Z.of_N (x `div` 10) < 10 ^ (k - 1)) as Hq.
    { rewrite N2Z.inj_div. change (Z.of_N 10) with 10.
      apply Z.div_lt_upper_bound; [lia|].
      assert (10 ^ k = 10 * 10 ^ (k - 1)) as <-; [|exact Hx].
      replace k with (1 + (k - 1)) at 1 by lia.
      rewrite Z.pow_add_r by lia. now rewrite Z.pow_1_r. }
    specialize (IH (x `div` 10)%N ltac:(apply N.div_lt; lia)
                  (String (pretty_N_char (x `mod` 10)) s) (k - 1)
                  ltac:(lia) Hq).
    cbn [PyStr.count_digits] in IH.
    destruct (PyStr.is_digit (pretty_N_char (x `mod` 10))); lia.
  - assert (x = 0%N) as -> by lia. rewrite pretty_N_go_0. lia.
Qed.

Lemma plain_not_c_space (c : ascii) :
  PyStr.plain c = true -> PyStr.is_c_space c = false.
Proof.
  destruct c as [[] [] [] [] [] [] [] []]; intros H;
    try reflexivity; discriminate H.
Qed.

(** [int] finds nothing to skip around a plain string. *)
Lemma skip_plain (s : string) :
  PyStr.all_chars PyStr.plain s = true ->
  PyStr.skip_trailing PyStr.is_c_space
    (PyStr.skip_leading PyStr.is_c_space s) = s.
Proof.
  intros H.
  assert (PyStr.skip_leading PyStr.is_c_space s = s) as ->.
  { destruct s as [|c r]; simpl; [reflexivity|].
    simpl in H. apply andb_prop in H as [Hc _].
    now rewrite (plain_not_c_space c Hc). }
  induction s as [|c r IH]; simpl; [reflexivity|].
  simpl in H. apply andb_prop in H as [Hc Hr]. rewrite (IH Hr).
  destruct r; [|reflexivity].
  now rewrite (plain_not_c_space c Hc).
Qed.

(** [int(str(n)) == n], for an [n] whose numeral [int] converts. *)
Lemma int_pretty (n : Z) :
  Z.abs n < 10 ^ PyStr.max_str_digits -> PyStr.int (pretty n) = Ok n.
Proof.
  intros Hn.
  assert (forall p : positive,
             Z.pos p < 10 ^ PyStr.max_str_digits ->
             PyStr.all_chars PyStr.plain (pretty_N_go (N.pos p) "") = true
             /\ PyStr.parse_digits 0 false (pretty_N_go (N.pos p) "")
                = Some (Z.pos p)
             /\ PyStr.count_digits (pretty_N_go (N.pos p) "")
                <= PyStr.max_str_digits) as Hpos.
  { intros p Hp. split; [now apply plain_pretty_N_go|]. split.
    - destruct (parse_pretty_N_go (N.pos p)) with (s := "") (acc := 0)
        (b := false) as (k & -> & _); [lia|].
      simpl. f_equal.
    - pose proof (count_digits_pretty_N_go (N.pos p) ""
                    PyStr.max_str_digits ltac:(discriminate) Hp) as Hc.
      cbn [PyStr.count_digits] in Hc. lia. }
  destruct n as [|p|p]; [reflexivity| |].
  - destruct (Hpos p Hn) as (Hplain & Hparse & Hcount).
    change (pretty (Z.pos p)) with (pretty_N_go (N.pos p) "").
    unfold PyStr.int. cbv zeta. rewrite (skip_plain _ Hplain).
    apply Z.leb_le in Hcount. rewrite Hcount.
    destruct (pretty_N_go (N.pos p) "") as [|c r] eqn:E;
      [simpl in Hparse; discriminate Hparse|].
    assert (PyStr.is_digit c = true) as Hc.
    { cbn [PyStr.parse_digits] in Hparse.
      destruct (PyStr.is_digit c); [reflexivity|].
      rewrite andb_false_r in Hparse. discriminate Hparse. }
    destruct c as [[] [] [] [] [] [] [] []]; try discriminate Hc;
      now rewrite Hparse.
  - destruct (Hpos p Hn) as (Hplain & Hparse & Hcount).
    change (pretty (Z.neg p))
      with (String "-" (pretty_N_go (N.pos p) "")).
    unfold PyStr.int. cbv zeta.
    rewrite skip_plain by (simpl; now rewrite Hplain).
    assert ((PyStr.count_digits (String "-" (pretty_N_go (N.pos p) ""))
             <=? PyStr.max_str_digits) = true) as ->.
    { apply Z.leb_le. cbn [PyStr.count_digits].
      change (PyStr.is_digit "-") with false. cbv iota.
      set (digits := PyStr.count_digits _) in *. lia. }
    now rewrite Hparse.
Qed.

Lemma plain_pretty (n : Z) : PyStr.all_chars PyStr.plain (pretty n) = true.
Proof.
  destruct n as [|p|p]; [reflexivity| |].
  - change (pretty (Z.pos p)) with (pretty_N_go (N.pos p) "").
    now apply plain_pretty_N_go.
  - change (pretty (Z.neg p))
      with (String "-" (pretty_N_go (N.pos p) "")).
    simpl. now apply plain_pretty_N_go.
Qed.

(** X18.  The parser reads back what the printer writes: for every
    integer [n] of at most 4300 digits, negative ones included, the decimal
    numeral of [n] followed by [s], [m] or [h] parses to [n], [60 n] and
    [3600 n] seconds.  (A longer numeral is one [int] refuses.) *)
Theorem parse_time_estimate_reads_numerals (n : Z) :
  Z.abs n < 10 ^ PyStr.max_str_digits ->
  _parse_time_estimate (pretty n +:+ "s") = Ok n
  /\ _parse_time_estimate (pretty n +:+ "m") = Ok (n * 60)
  /\ _parse_time_estimate (pretty n +:+ "h") = Ok (n * 3600).
Proof.
  intros Hn.
  assert (forall c : ascii,
             PyStr.plain c = true ->
             PyStr.strip (PyStr.lower (pretty n +:+ String c EmptyString))
             = pretty n +:+ String c EmptyString) as Hnorm.
  { intros c Hc.
    assert (PyStr.all_chars PyStr.plain (pretty n +:+ String c EmptyString)
            = true) as Hp
      by (rewrite all_chars_app, plain_pretty; simpl; now rewrite Hc).
    rewrite (lower_plain _ Hp). now apply strip_plain. }
  unfold _parse_time_estimate.
  rewrite !Hnorm by reflexivity.
  unfold PyStr.endswith. rewrite !last_char_snoc, !drop_last_snoc.
  rewrite (int_pretty n Hn). now repeat split.
Qed.

(** The numeral of -45. *)
Lemma parse_time_estimate_reads_numerals_witness :
  Z.abs (-45) < 10 ^ PyStr.max_str_digits
  /\ _parse_time_estimate (pretty (-45) +:+ "m") = Ok (-45 * 60).
Proof.
  assert (Z.abs (-45) < 10 ^ PyStr.max_str_digits) as Hn.
  { apply Z.lt_le_trans with (10 ^ 2); [reflexivity|].
    apply Z.pow_le_mono_r; [reflexivity | discriminate]. }
  split; [exact Hn|].
  exact (proj1 (proj2 (parse_time_estimate_reads_numerals (-45) Hn))).
Defined.

(** *** Letter case and padding *)

Lemma lower_char_idempotent (c : ascii) :
  PyStr.lower_char (PyStr.lower_char c) = PyStr.lower_char c
  /\ PyStr.is_space (PyStr.lower_char c) = PyStr.is_space c.
Proof. destruct c as [[] [] [] [] [] [] [] []]; now split. Qed.

Lemma lower_idempotent (s : string) :
  PyStr.lower (PyStr.lower s) = PyStr.lower s.
Proof.
  induction s as [|c r IH]; simpl; [reflexivity|].
  now rewrite IH, (proj1 (lower_char_idempotent c)).
Qed.

Lemma lower_app (s t : string) :
  PyStr.lower (s +:+ t) = PyStr.lower s +:+ PyStr.lower t.
Proof. induction s as [|c r IH]; simpl; [reflexivity | now rewrite IH]. Qed.

Lemma lower_keeps_space (s : string) :
  PyStr.all_chars PyStr.is_space (PyStr.lower s)
  = PyStr.all_chars PyStr.is_space s.
Proof.
  induction s as [|c r IH]; simpl; [reflexivity|].
  now rewrite IH, (proj2 (lower_char_idempotent c)).
Qed.

Lemma lstrip_space (s : string) :
  PyStr.all_chars PyStr.is_space s = true -> PyStr.lstrip s = EmptyString.
Proof.
  induction s as [|c r IH]; simpl; [reflexivity|].
  intros H. apply andb_prop in H as [-> Hr]. now apply IH.
Qed.

Lemma rstrip_space (s : string) :
  PyStr.all_chars PyStr.is_space s = true -> PyStr.rstrip s = EmptyString.
Proof.
  induction s as [|c r IH]; simpl; [reflexivity|].
  intros H. apply andb_prop in H as [Hc Hr]. now rewrite (IH Hr), Hc.
Qed.

Lemma lstrip_padding (pad s : string) :
  PyStr.all_chars PyStr.is_space pad = true ->
  PyStr.lstrip (pad +:+ s) = PyStr.lstrip s.
Proof.
  induction pad as [|c r IH]; simpl; [reflexivity|].
  intros H. apply andb_prop in H as [-> Hr]. now apply IH.
Qed.

Lemma rstrip_padding (s pad : string) :
  PyStr.all_chars PyStr.is_space pad = true ->
  PyStr.rstrip (s +:+ pad) = PyStr.rstrip s.
Proof.
  intros H. induction s as [|c r IH]; simpl.
  - now apply rstrip_space.
  - now rewrite IH.
Qed.

Lemma strip_padding (left s right : string) :
  PyStr.all_chars PyStr.is_space left = true ->
  PyStr.all_chars PyStr.is_space right = true ->
  PyStr.strip (left +:+ s +:+ right) = PyStr.strip s.
Proof.
  intros Hl Hr. unfold PyStr.strip. rewrite (lstrip_padding _ _ Hl).
  induction s as [|c r IH].
  - change (EmptyString +:+ right) with right.
    now rewrite (lstrip_space _ Hr).
  - change (String c r +:+ right) with (String c (r +:+ right)).
    cbn [PyStr.lstrip].
    destruct (PyStr.is_space c); [exact IH|].
    change (String c (r +:+ right)) with (String c r +:+ right).
    now apply rstrip_padding.
Qed.

(** X19.  The parser ignores the case of letters and whitespace around
    the estimate: an estimate gives what its lower-case form gives, and
    what it gives with whitespace before and after it. *)
Theorem parse_time_estimate_ignores_case_and_padding
    (left time_str right : string) :
  PyStr.all_chars PyStr.is_space left = true ->
  PyStr.all_chars PyStr.is_space right = true ->
  _parse_time_estimate (left +:+ time_str +:+ right)
  = _parse_time_estimate time_str
  /\ _parse_time_estimate (PyStr.lower time_str)
     = _parse_time_estimate time_str.
Proof.
  intros Hl Hr. unfold _parse_time_estimate. split.
  - rewrite !lower_app.
    rewrite strip_padding by (now rewrite lower_keeps_space).
    reflexivity.
  - now rewrite lower_idempotent.
Qed.

Lemma parse_time_estimate_ignores_case_and_padding_witness :
  PyStr.all_chars PyStr.is_space "  " = true
  /\ PyStr.all_chars PyStr.is_space " " = true
  /\ _parse_time_estimate ("  " +:+ "5M" +:+ " ") = Ok 300.
Proof.
  split; [reflexivity|]. split; [reflexivity|].
  rewrite (proj1 (parse_time_estimate_ignores_case_and_padding
                    "  " "5M" " " eq_refl eq_refl)).
  reflexivity.
Defined.

End ParserMore.

(** ** The analyzer's cache and the detector's history *)

Module PeersMore.

Import Models.

(** *** The analysis cache *)



Lemma cache_set_length (key : string) (analysis : Analysis)
    (cache : Analyzer.Cache) :
  (length (Analyzer.cache_set key analysis cache) <= S (length cache))%nat.
Proof.
  induction cache as [|[k v] rest IH]; simpl; [lia|].
  destruct (decide (k = key)); simpl; lia.
Qed.


Lemma filter_oldest_length (oldest rest : Analyzer.Cache) :
  (length (filter (fun entry : string * Analysis => entry.1 ∉ oldest.*1)
             (oldest ++ rest))
   <= length rest)%nat.
Proof.
  rewrite filter_app, length_app.
  match goal with
  | |- (length ?kept + _ <= _)%nat => assert (kept = []) as ->
  end.
  { generalize (fun entry Hin =>
                  list_elem_of_fmap_2 (B := string) fst oldest entry Hin).
    generalize (oldest.*1) as keys. intros keys Hkeys.
    induction oldest as [|entry oldest IH]; [reflexivity|].
    rewrite filter_cons_False.
    - apply IH. intros e He. apply Hkeys. now right.
    - intros Hout. apply Hout, Hkeys. now left. }
  simpl. apply length_filter.
Qed.

(** The clean-up of a cache of more than 100 entries drops at least the 50
    oldest. *)
Lemma cleanup_cache_length (cache : Analyzer.Cache) :
  (length (Analyzer._cleanup_cache cache) <= 100)%nat
  \/ (length (Analyzer._cleanup_cache cache) + 50 <= length cache)%nat.
Proof.
  unfold Analyzer._cleanup_cache.
  destruct (Nat.ltb_spec 100 (length cache)) as [Hgt|Hle]; [|now left].
  right. rewrite <- fmap_take.
  pose proof (filter_oldest_length (take 50 cache) (drop 50 cache)) as H.
  rewrite take_drop in H. rewrite length_drop in H. etransitivity; [apply Nat.add_le_mono_r, H | lia].
Qed.

(** X20.  Starting from an empty cache, after any number of analysis
    requests the cache holds at most 100 analyses. *)
Theorem analysis_cache_stays_bounded
    (requests : list (Incident * string * Analysis)) :
  (length
     (fold_left
        (fun cache r =>
           (Analyzer._handle_analysis_request cache r.1.1 r.1.2 r.2).1)
        requests [])
   <= 100)%nat.
Proof.
  assert (forall cache : Analyzer.Cache,
             (length cache <= 100)%nat ->
             (length
                (fold_left
                   (fun cache r =>
                      (Analyzer._handle_analysis_request cache r.1.1 r.1.2
                         r.2).1)
                   requests cache) <= 100)%nat) as H.
  { induction requests as [|[[i k] a] requests IH]; intros cache Hc; simpl;
      [exact Hc|].
    apply IH. unfold Analyzer._handle_analysis_request.
    destruct (Analyzer.cache_get k cache); simpl; [exact Hc|].
    pose proof (cache_set_length k a cache).
    destruct (cleanup_cache_length (Analyzer.cache_set k a cache)); lia. }
  apply H. simpl. lia.
Qed.




(** *** The metrics history *)

Lemma store_one_bounded
    (history : gmap string (list Detector.ServiceMetrics))
    (metric : Detector.ServiceMetrics) :
  (forall k l, history !! k = Some l ->
               (length l <= 100)%nat
               /\ Forall (fun m => Detector.service m = k) l) ->
  forall k l, Detector.store_one history metric !! k = Some l ->
              (length l <= 100)%nat
              /\ Forall (fun m => Detector.service m = k) l.
Proof.
  intros Hall k l. unfold Detector.store_one. rewrite lookup_insert.
  destruct (decide (Detector.service metric = k)) as [<-|Hne];
    [|apply Hall].
  intros [= <-].
  assert ((length (default [] (history !! Detector.service metric)) <= 100)%nat
          /\ Forall (fun m => Detector.service m = Detector.service metric)
               (default [] (history !! Detector.service metric)))
    as [Hlen Hsvc].
  { destruct (history !! Detector.service metric) as [old|] eqn:Ho; simpl.
    - now apply Hall.
    - split; [lia | constructor]. }
  set (old := default [] (history !! Detector.service metric)) in *.
  assert (Forall (fun m => Detector.service m = Detector.service metric)
            (old ++ [metric])) as Hs'
    by (apply Forall_app; split; [exact Hsvc | now repeat constructor]).
  destruct (Nat.ltb_spec 100 (length (old ++ [metric]))) as [Hgt|Hle].
  - split; [|now apply Forall_drop].
    rewrite length_drop, length_app in *. simpl in *. lia.
  - split; [exact Hle | exact Hs'].
Qed.

(** X22.  Through every sequence of monitoring cycles from an empty
    history, the history of a service holds at most 100 snapshots, all of
    this service. *)
Theorem metrics_history_stays_bounded
    (cycles : list (list Detector.ServiceMetrics)) (k : string)
    (l : list Detector.ServiceMetrics) :
  fold_left Detector._store_metrics_history cycles ∅ !! k = Some l ->
  (length l <= 100)%nat /\ Forall (fun m => Detector.service m = k) l.
Proof.
  revert k l.
  assert (forall k l,
             (∅ : gmap string (list Detector.ServiceMetrics)) !! k = Some l ->
             (length l <= 100)%nat
             /\ Forall (fun m => Detector.service m = k) l) as H0
    by (intros k l H; now rewrite lookup_empty in H).
  revert H0.
  generalize (∅ : gmap string (list Detector.ServiceMetrics)) as history.
  induction cycles as [|metrics cycles IH]; intros history Hh; simpl;
    [exact Hh|].
  apply IH. unfold Detector._store_metrics_history.
  clear IH. revert history Hh.
  induction metrics as [|m metrics IHm]; intros history Hh; simpl;
    [exact Hh|].
  apply IHm. now apply store_one_bounded.
Qed.

Lemma metrics_history_stays_bounded_witness :
  let snapshot (name : string) (pods : Z) :=
    {| Detector.service := name; Detector.cpu_usage := 0.5%float;
       Detector.memory_usage := 0.25%float; Detector.pod_count := pods;
       Detector.ready_pods := pods; Detector.restart_count := 0;
       Detector.error_rate := 0%float |} in
  let cycles :=
    [[snapshot "cart" 2; snapshot "ledger" 1]; [snapshot "cart" 3]] in
  let samples := [snapshot "cart" 2; snapshot "cart" 3] in
  fold_left Detector._store_metrics_history cycles ∅ !! "cart" = Some samples
  /\ (length samples <= 100)%nat
  /\ Forall (fun m => Detector.service m = "cart") samples.
Proof.
  intros snapshot cycles samples. split; [reflexivity|].
  apply (metrics_history_stays_bounded cycles "cart" samples). reflexivity.
Defined.

End PeersMore.
